(** * Spectral detection engine of the miner detector

    Source: [src/signal_processor.py].

    A shallow embedding of [SignalProcessor]: the spectral transform
    ([_compute_fft]), the peak detector ([_analyze_signal], built on SciPy's
    [find_peaks]), the confidence score ([_calculate_confidence]) and the
    monitor loop with its start/stop control.

    Numbers.  The program computes with IEEE doubles.  A finite double is a
    dyadic rational, so finite values are carried as [Q] and compared
    exactly; the special values the program can produce (the logarithm of a
    zero magnitude, a division by a zero threshold) are explicit
    constructors.  Rounding is not modelled. *)

From Stdlib Require Import List Bool Arith ZArith QArith Qabs Qminmax Lia Lqa.
From Stdlib Require Import Sorted Permutation.
From Stdlib Require String.
Import ListNotations.

Local Open Scope Q_scope.

(** ** Doubles with their special values *)

Module NpFloat.

Inductive npfloat : Type :=
| NaN : npfloat
| NInf : npfloat
| Fin : Q -> npfloat
| PInf : npfloat.

(** [a < b], [a <= b], [a == b] as IEEE comparisons: false whenever an
    operand is [NaN]. *)
Definition flt (a b : npfloat) : bool :=
  match a, b with
  | NaN, _ | _, NaN => false
  | NInf, NInf => false
  | NInf, _ => true
  | _, NInf => false
  | Fin x, Fin y => negb (Qle_bool y x)
  | Fin _, PInf => true
  | PInf, _ => false
  end.

Definition feq (a b : npfloat) : bool :=
  match a, b with
  | NInf, NInf | PInf, PInf => true
  | Fin x, Fin y => Qeq_bool x y
  | _, _ => false
  end.

Definition fle (a b : npfloat) : bool := flt a b || feq a b.

Definition fneg (a : npfloat) : npfloat :=
  match a with
  | NaN => NaN
  | NInf => PInf
  | Fin x => Fin (- x)
  | PInf => NInf
  end.

Definition fadd (a b : npfloat) : npfloat :=
  match a, b with
  | NaN, _ | _, NaN => NaN
  | NInf, PInf | PInf, NInf => NaN
  | NInf, _ | _, NInf => NInf
  | PInf, _ | _, PInf => PInf
  | Fin x, Fin y => Fin (x + y)
  end.

Definition fsub (a b : npfloat) : npfloat := fadd a (fneg b).

(** Multiplication by a finite constant (the [20 * ...] of the power
    spectrum). *)
Definition fscale (c : Q) (a : npfloat) : npfloat :=
  match a with
  | NaN => NaN
  | Fin x => Fin (c * x)
  | NInf => match c ?= 0 with Gt => NInf | Lt => PInf | Eq => NaN end
  | PInf => match c ?= 0 with Gt => PInf | Lt => NInf | Eq => NaN end
  end.

(** Division by a finite non-negative divisor, the only kind the program
    performs (an element count, an absolute value).  A zero divisor gives an
    infinity or [NaN] as NumPy does, with a warning and no exception. *)
Definition fdiv (a : npfloat) (d : Q) : npfloat :=
  match d ?= 0 with
  | Eq =>
      match a with
      | Fin x => match x ?= 0 with Gt => PInf | Lt => NInf | Eq => NaN end
      | _ => a
      end
  | _ =>
      match a with
      | Fin x => Fin (x / d)
      | _ => a
      end
  end.

Definition is_finite (a : npfloat) : bool :=
  match a with Fin _ => true | _ => false end.

(** Python's builtin [max(a, b)] and [min(a, b)]: the first argument is kept
    unless the second compares strictly greater (smaller). *)
Definition py_max (a b : npfloat) : npfloat := if flt a b then b else a.
Definition py_min (a b : npfloat) : npfloat := if flt b a then b else a.

(** [np.mean] of a non-empty array: the sum divided by the element count. *)
Definition np_sum (l : list npfloat) : npfloat :=
  fold_left fadd l (Fin 0).

Definition np_mean (l : list npfloat) : npfloat :=
  fdiv (np_sum l) (inject_Z (Z.of_nat (length l))).

End NpFloat.
Export NpFloat.

(** ** Configuration ([config.json]) *)

Record Config : Type := {
  sample_rate : Q;          (* config['rtlsdr']['sample_rate'] *)
  gain : Q;                 (* config['rtlsdr']['gain'] *)
  sample_size : nat;        (* config['fft']['sample_size'] *)
  threshold_power : Q       (* config['alert']['threshold']['power'] *)
}.

(** ** Confidence score *)

(** [_calculate_confidence]:
    [min(max((mean - threshold) / abs(threshold), 0), 1)]. *)
Definition _calculate_confidence (cfg : Config) (peak_powers : list npfloat)
  : npfloat :=
  let avg_power := np_mean peak_powers in
  let threshold := threshold_power cfg in
  let confidence := fdiv (fsub avg_power (Fin threshold)) (Qabs threshold) in
  py_min (py_max confidence (Fin 0)) (Fin 1).

(** The confidence as the specification words it, over the rationals. *)
Definition Qmean (l : list Q) : Q :=
  fold_right Qplus 0 l / inject_Z (Z.of_nat (length l)).

Definition clamp (x lo hi : Q) : Q := Qmin (Qmax x lo) hi.

Definition spec_confidence (threshold : Q) (powers : list Q) : Q :=
  clamp ((Qmean powers - threshold) / Qabs threshold) 0 1.

(** ** Exceptions and results *)

Inductive exn : Type :=
| AttributeError      (* a method looked up on [None] *)
| ValueError          (* shapes that do not broadcast, an empty transform *)
| ZeroDivisionError   (* [1 / sample_rate] with a zero rate *)
| IndexError          (* an index past the end of an array *)
| RuntimeError        (* a thread joining itself *)
| SourceReadError     (* the sample source failed to deliver a block *)
| SinkCallbackError.  (* the registered callback raised *)

Inductive outcome (A : Type) : Type :=
| Ok : A -> outcome A
| Raise : exn -> outcome A.
Arguments Ok {A} _.
Arguments Raise {A} _.

Definition bind {A B : Type} (m : outcome A) (k : A -> outcome B) : outcome B :=
  match m with
  | Ok a => k a
  | Raise e => Raise e
  end.

Notation "x <- m ;; k" := (bind m (fun x => k))
  (at level 61, m at next level, right associativity).

(** ** Spectral transform *)

(** The numeric routines that NumPy supplies and the rationals cannot
    express: the carrier of complex samples, the discrete Fourier transform,
    the complex magnitude and the decimal logarithm of a positive number. *)
Record Numerics : Type := {
  complex : Type;
  cscale : complex -> Q -> complex;        (* sample * window coefficient *)
  np_fft : list complex -> list complex;   (* np.fft.fft *)
  np_abs : complex -> Q;                   (* np.abs of a finite complex *)
  log10_pos : Q -> Q                       (* log10 of a positive magnitude *)
}.

(** [np.fft.fftshift] of a one-dimensional array: a roll by [n // 2]. *)
Definition fftshift {A : Type} (x : list A) : list A :=
  let n := length x in
  let shift := (n / 2)%nat in
  skipn (n - shift) x ++ firstn (n - shift) x.

(** [np.fft.fftfreq(n, d)]: the bins [0 .. (n-1)//2] then [-(n//2) .. -1],
    each times [1 / (n * d)]. *)
Definition fftfreq_bins (n : nat) : list Z :=
  map Z.of_nat (seq 0 ((n - 1) / 2 + 1))
  ++ map (fun k => (Z.of_nat k - Z.of_nat (n / 2))%Z) (seq 0 (n / 2)).

Definition fftfreq (n : nat) (d : Q) : list Q :=
  let val := 1 / (inject_Z (Z.of_nat n) * d) in
  map (fun k => inject_Z k * val) (fftfreq_bins n).

(** The result dictionary of [_compute_fft]. *)
Record FftResult : Type := {
  power : list npfloat;
  frequencies : list Q
}.

Section Transform.

Variable K : Numerics.

(** [np.log10] on a magnitude: minus infinity at zero (a warning, not an
    exception), [NaN] below. *)
Definition np_log10 (m : Q) : npfloat :=
  match m ?= 0 with
  | Eq => NInf
  | Gt => Fin (log10_pos K m)
  | Lt => NaN
  end.

(** [20 * np.log10(np.abs(c))] for one bin: the magnitude goes to the
    logarithm as it is. *)
Definition power_db (c : complex K) : npfloat :=
  fscale 20 (np_log10 (np_abs K c)).

(** [samples * self.window] with NumPy's broadcasting of one-dimensional
    arrays: equal lengths multiply elementwise, a length-one operand is
    stretched, anything else raises. *)
Fixpoint zip_window (samples : list (complex K)) (window : list Q)
  : list (complex K) :=
  match samples, window with
  | s :: samples', w :: window' => cscale K s w :: zip_window samples' window'
  | _, _ => []
  end.

Definition apply_window (samples : list (complex K)) (window : list Q)
  : outcome (list (complex K)) :=
  if (length samples =? length window)%nat then Ok (zip_window samples window)
  else match samples, window with
       | _, [w] => Ok (map (fun s => cscale K s w) samples)
       | [s], _ => Ok (map (fun w => cscale K s w) window)
       | _, _ => Raise ValueError
       end.

(** [_compute_fft]. *)
Definition _compute_fft (cfg : Config) (window : list Q)
  (samples : list (complex K)) : outcome FftResult :=
  windowed <- apply_window samples window ;;
  fft <- (match windowed with
          | [] => Raise ValueError
          | _ => Ok (np_fft K windowed)
          end) ;;
  let fft := fftshift fft in
  let power := map power_db fft in
  d <- (if Qeq_bool (sample_rate cfg) 0 then Raise ZeroDivisionError
        else Ok (1 / sample_rate cfg)) ;;
  Ok {| power := power;
        frequencies := fftfreq (length samples) d |}.

End Transform.

(** ** Peak detector: SciPy's [find_peaks(x, height=..., distance=...)] *)

Module FindPeaks.

Definition at_ (x : list npfloat) (i : nat) : npfloat := nth i x NaN.

(** The inner loop of [_local_maxima_1d]: advance [i_ahead] over the samples
    equal to [x[i]], never past [i_max]. *)
Fixpoint skip_plateau (fuel : nat) (x : list npfloat) (xi : npfloat)
  (i_ahead i_max : nat) : nat :=
  match fuel with
  | O => i_ahead
  | S fuel' =>
      if (i_ahead <? i_max)%nat && feq (at_ x i_ahead) xi
      then skip_plateau fuel' x xi (S i_ahead) i_max
      else i_ahead
  end.

(** The outer loop of [_local_maxima_1d], from sample [i]: a maximum is a
    sample (or plateau) strictly above both the previous sample and the next
    unequal one; the midpoint of a plateau is reported. *)
Fixpoint local_maxima_loop (fuel : nat) (x : list npfloat) (i i_max : nat)
  : list nat :=
  match fuel with
  | O => []
  | S fuel' =>
      if (i <? i_max)%nat then
        if flt (at_ x (i - 1)) (at_ x i) then
          let i_ahead := skip_plateau (i_max - S i) x (at_ x i) (S i) i_max in
          if flt (at_ x i_ahead) (at_ x i) then
            ((i + (i_ahead - 1)) / 2)%nat
              :: local_maxima_loop fuel' x (S i_ahead) i_max
          else local_maxima_loop fuel' x (S i) i_max
        else local_maxima_loop fuel' x (S i) i_max
      else []
  end.

(** The first and the last sample are never maxima: [i] runs from [1] while
    [i < len(x) - 1].  Every iteration advances [i], so [len(x)] iterations
    are enough. *)
Definition _local_maxima_1d (x : list npfloat) : list nat :=
  local_maxima_loop (length x) x 1 (length x - 1).

(** [_select_by_property(peak_heights, hmin, None)]: [hmin <= height]. *)
Definition _select_by_property (peak_heights : list npfloat) (hmin : Q)
  : list bool :=
  map (fun h => fle (Fin hmin) h) peak_heights.

(** [peaks[keep]]. *)
Fixpoint mask {A : Type} (l : list A) (keep : list bool) : list A :=
  match l, keep with
  | a :: l', k :: keep' => if k then a :: mask l' keep' else mask l' keep'
  | _, _ => []
  end.

(** NumPy's sort order on doubles: [NaN] sorts last. *)
Definition np_lt (a b : npfloat) : bool :=
  flt a b || (negb (feq b b) && feq a a).

(** [np.argsort(priority)]: the positions in ascending order of priority.
    NumPy's default sort is an insertion sort on runs of at most sixteen
    elements, which leaves equal keys in their original order; that stable
    order is the one modelled. *)
Fixpoint insert_pos (priority : list npfloat) (j : nat) (sorted : list nat)
  : list nat :=
  match sorted with
  | [] => [j]
  | k :: sorted' =>
      if np_lt (at_ priority j) (at_ priority k) then j :: sorted
      else k :: insert_pos priority j sorted'
  end.

Definition argsort (priority : list npfloat) : list nat :=
  fold_left (fun sorted j => insert_pos priority j sorted)
            (seq 0 (length priority)) [].

Definition clear (k : nat) (keep : list bool) : list bool :=
  firstn k keep ++ match skipn k keep with
                   | [] => []
                   | _ :: rest => false :: rest
                   end.

(** The loop over earlier peaks,
    [k = j - 1; while 0 <= k and peaks[j] - peaks[k] < distance: ...; k -= 1],
    which clears [keep[k]];
    the argument [k] is one more than the position examined next. *)
Fixpoint clear_earlier (peaks : list nat) (distance : Z) (pj : Z) (k : nat)
  (keep : list bool) : list bool :=
  match k with
  | O => keep
  | S k' =>
      if (pj - Z.of_nat (nth k' peaks O) <? distance)%Z
      then clear_earlier peaks distance pj k' (clear k' keep)
      else keep
  end.

(** The loop over later peaks,
    [k = j + 1; while k < size and peaks[k] - peaks[j] < distance: ...; k += 1],
    which clears [keep[k]];
    [todo] counts the positions from [k] to the end. *)
Fixpoint clear_later (peaks : list nat) (distance : Z) (pj : Z) (todo k : nat)
  (keep : list bool) : list bool :=
  match todo with
  | O => keep
  | S todo' =>
      if (Z.of_nat (nth k peaks O) - pj <? distance)%Z
      then clear_later peaks distance pj todo' (S k) (clear k keep)
      else keep
  end.

(** [_select_by_peak_distance]: the peaks are visited from the highest
    priority down; a peak still kept removes every neighbour closer than
    [distance]. *)
Definition visit_peak (peaks : list nat) (distance : Z) (keep : list bool)
  (j : nat) : list bool :=
  if nth j keep false then
    let pj := Z.of_nat (nth j peaks O) in
    let keep := clear_earlier peaks distance pj j keep in
    clear_later peaks distance pj (length peaks - S j) (S j) keep
  else keep.

Definition _select_by_peak_distance (peaks : list nat)
  (priority : list npfloat) (distance : nat) : list bool :=
  fold_left (visit_peak peaks (Z.of_nat distance))
            (rev (argsort priority))
            (repeat true (length peaks)).

(** The candidate peaks: the local maxima that meet the height condition. *)
Definition candidates (x : list npfloat) (height : Q) : list nat :=
  let peaks := _local_maxima_1d x in
  mask peaks (_select_by_property (map (at_ x) peaks) height).

(** [find_peaks(x, height=height, distance=distance)[0]]. *)
Definition find_peaks (x : list npfloat) (height : Q) (distance : nat)
  : list nat :=
  let peaks := candidates x height in
  mask peaks (_select_by_peak_distance peaks (map (at_ x) peaks) distance).

End FindPeaks.
Export FindPeaks.

(** ** Detection records and the processor object *)

Record Detection : Type := {
  timestamp : nat;
  det_frequencies : list Q;
  det_powers : list npfloat;
  confidence : npfloat
}.

(** [[a[p] for p in peaks]]: an index past the end raises. *)
Fixpoint index_all {A : Type} (a : list A) (peaks : list nat)
  : outcome (list A) :=
  match peaks with
  | [] => Ok []
  | p :: peaks' =>
      match nth_error a p with
      | None => Raise IndexError
      | Some v => vs <- index_all a peaks' ;; Ok (v :: vs)
      end
  end.

(** The separation passed to [find_peaks] is the literal [20]. *)
Definition peak_distance : nat := 20.

(** [_analyze_signal], on the detection store [detected_signals]: the
    detection (if any) and the store afterwards. *)
Definition _analyze_signal (cfg : Config) (now : nat) (fft_result : FftResult)
  (detected_signals : list Detection)
  : outcome (option Detection * list Detection) :=
  let threshold := threshold_power cfg in
  let peaks := find_peaks (power fft_result) threshold peak_distance in
  if (0 <? length peaks)%nat then
    fs <- index_all (frequencies fft_result) peaks ;;
    ps <- index_all (power fft_result) peaks ;;
    let detection := {| timestamp := now;
                        det_frequencies := fs;
                        det_powers := ps;
                        confidence := _calculate_confidence cfg ps |} in
    Ok (Some detection, detected_signals ++ [detection])
  else Ok (None, detected_signals).

(** The opened device. *)
Record RtlSdr : Type := {
  dev_sample_rate : Q;
  dev_gain : Q;
  center_freq : option Q
}.

Inductive thread : Type :=
| Alive       (* started, its loop has not returned *)
| Finished.   (* its loop has returned *)

Inductive log_entry : Type :=
| LogInfo : log_entry
| LogError : exn -> log_entry.

(** The fields of [SignalProcessor], with two ghost fields: the records
    handed to the callback ([sink_calls]) and the lines written to the
    logger ([log]).  A callback is represented by what it does when called:
    return ([Ok]) or raise. *)
Record SignalProcessor : Type := {
  config : Config;
  window : list Q;
  sdr : option RtlSdr;
  running : bool;
  processing_thread : option thread;
  callback : option (Detection -> outcome unit);
  detected_signals : list Detection;
  sink_calls : list Detection;
  log : list log_entry
}.

Definition set_sdr (v : option RtlSdr) (st : SignalProcessor) :=
  {| config := config st; window := window st; sdr := v;
     running := running st; processing_thread := processing_thread st;
     callback := callback st; detected_signals := detected_signals st;
     sink_calls := sink_calls st; log := log st |}.

Definition set_running (v : bool) (st : SignalProcessor) :=
  {| config := config st; window := window st; sdr := sdr st;
     running := v; processing_thread := processing_thread st;
     callback := callback st; detected_signals := detected_signals st;
     sink_calls := sink_calls st; log := log st |}.

Definition set_thread (v : option thread) (st : SignalProcessor) :=
  {| config := config st; window := window st; sdr := sdr st;
     running := running st; processing_thread := v;
     callback := callback st; detected_signals := detected_signals st;
     sink_calls := sink_calls st; log := log st |}.

Definition set_callback (v : option (Detection -> outcome unit))
  (st : SignalProcessor) :=
  {| config := config st; window := window st; sdr := sdr st;
     running := running st; processing_thread := processing_thread st;
     callback := v; detected_signals := detected_signals st;
     sink_calls := sink_calls st; log := log st |}.

Definition set_detected (v : list Detection) (st : SignalProcessor) :=
  {| config := config st; window := window st; sdr := sdr st;
     running := running st; processing_thread := processing_thread st;
     callback := callback st; detected_signals := v;
     sink_calls := sink_calls st; log := log st |}.

Definition add_sink_call (d : Detection) (st : SignalProcessor) :=
  {| config := config st; window := window st; sdr := sdr st;
     running := running st; processing_thread := processing_thread st;
     callback := callback st; detected_signals := detected_signals st;
     sink_calls := sink_calls st ++ [d]; log := log st |}.

Definition add_log (e : log_entry) (st : SignalProcessor) :=
  {| config := config st; window := window st; sdr := sdr st;
     running := running st; processing_thread := processing_thread st;
     callback := callback st; detected_signals := detected_signals st;
     sink_calls := sink_calls st; log := log st ++ [e] |}.

(** [__init__]. *)
Definition init (cfg : Config) (win : list Q) : SignalProcessor :=
  {| config := cfg; window := win; sdr := None; running := false;
     processing_thread := None; callback := None; detected_signals := [];
     sink_calls := []; log := [] |}.

Definition get_detected_signals (st : SignalProcessor) : list Detection :=
  detected_signals st.

Definition clear_detected_signals (st : SignalProcessor) : SignalProcessor :=
  set_detected [] st.

(** ** Monitor loop *)

Section Monitor.

Variable K : Numerics.

(** What the world supplies to one pass of the loop: the outcome of
    [read_samples] on an opened device and the clock reading. *)
Record tick : Type := {
  read : outcome (list (complex K));
  now : nat
}.

(** The body of the [try] in [_processing_loop] once [self.sdr] is a
    device; the state comes back with the exception so that what was done
    before the raise is kept. *)
Definition try_body (t : tick) (st : SignalProcessor)
  : SignalProcessor * outcome unit :=
  match read t with
  | Raise e => (st, Raise e)
  | Ok samples =>
      match _compute_fft K (config st) (window st) samples with
      | Raise e => (st, Raise e)
      | Ok fft_result =>
          match _analyze_signal (config st) (now t) fft_result
                                (detected_signals st) with
          | Raise e => (st, Raise e)
          | Ok (detected, store) =>
              let st := set_detected store st in
              match detected, callback st with
              | Some d, Some cb => (add_sink_call d st, cb d)
              | _, _ => (st, Ok tt)
              end
          end
      end
  end.

(** The [except Exception] handler: the error is logged and [running]
    cleared; the [break] that follows leaves the loop. *)
Definition on_exception (e : exn) (st : SignalProcessor) : SignalProcessor :=
  set_running false (add_log (LogError e) st).

(** One pass over a block: the [try] body, then the handler if it raised. *)
Definition loop_pass (t : tick) (st : SignalProcessor) : SignalProcessor :=
  match try_body t st with
  | (st', Ok _) => st'
  | (st', Raise e) => on_exception e st'
  end.

(** [_processing_loop] over the blocks the world supplies: the final state
    and the ticks never consumed.  With [self.sdr] still [None] the method
    lookup raises before anything is read.  The thread is [Finished] once
    the loop has returned; when the supply is exhausted with [running] still
    set, the thread is left [Alive], waiting for its next block. *)
Fixpoint _processing_loop (ticks : list tick) (st : SignalProcessor)
  : SignalProcessor * list tick :=
  if running st then
    match sdr st with
    | None =>
        (set_thread (Some Finished) (on_exception AttributeError st), ticks)
    | Some _ =>
        match ticks with
        | [] => (st, [])
        | t :: ticks' => _processing_loop ticks' (loop_pass t st)
        end
    end
  else (set_thread (Some Finished) st, ticks).

(** [start_processing]: refused while running; otherwise the flag is set,
    the callback stored and the thread started, and [True] is returned
    without waiting for the loop. *)
Definition start_processing (cb : option (Detection -> outcome unit))
  (st : SignalProcessor) : bool * SignalProcessor :=
  if running st then (false, st)
  else (true, set_thread (Some Alive) (set_callback cb (set_running true st))).

(** Who calls [stop_processing]: the controller, or the loop's own thread
    (from inside the callback). *)
Inductive caller : Type :=
| Controller
| LoopThread.

(** [processing_thread.join()]: a finished thread is joined at once; a live
    loop notices the cleared flag at its next test and returns; a thread
    joining itself raises. *)
Definition join (who : caller) (st : SignalProcessor)
  : SignalProcessor * outcome unit :=
  match processing_thread st, who with
  | Some Alive, LoopThread => (st, Raise RuntimeError)
  | Some Alive, Controller => (fst (_processing_loop [] st), Ok tt)
  | _, _ => (st, Ok tt)
  end.

(** [stop_processing]: the flag is cleared, the thread (if any) joined, the
    device (if any) closed and forgotten. *)
Definition stop_processing (who : caller) (st : SignalProcessor)
  : SignalProcessor * outcome unit :=
  let st := set_running false st in
  match join who st with
  | (st, Raise e) => (st, Raise e)
  | (st, Ok _) =>
      (match sdr st with
       | Some _ => set_sdr None st
       | None => st
       end, Ok tt)
  end.


End Monitor.

Arguments read {K} _.
Arguments now {K} _.

(** ** A numerics instance that computes

    Gaussian rationals carry the samples.  The transform is the defining sum
    of the discrete Fourier transform with the roots of unity of order one,
    two and four, which are Gaussian rationals; the magnitude is exact for a
    number on one of the axes and the logarithm for a power of ten.  On
    blocks of length one, two or four whose bins meet these conditions the
    instance agrees with NumPy; elsewhere it returns rational stand-ins. *)

Module Gaussian.

Definition gq : Type := (Q * Q)%type.

Definition gadd (a b : gq) : gq := (fst a + fst b, snd a + snd b).

Definition gmul (a b : gq) : gq :=
  (fst a * fst b - snd a * snd b, fst a * snd b + snd a * fst b).

Definition gscale (a : gq) (w : Q) : gq := (fst a * w, snd a * w).

(** [exp(-2 pi i k / n)] for [n] in [{1, 2, 4}]. *)
Definition unit_root (n k : nat) : gq :=
  match n with
  | 2%nat => if Nat.even k then (1, 0) else (-(1), 0)
  | 4%nat => match (k mod 4)%nat with
             | 0%nat => (1, 0)
             | 1%nat => (0, -(1))
             | 2%nat => (-(1), 0)
             | _ => (0, 1)
             end
  | _ => (1, 0)
  end.

Definition dft (x : list gq) : list gq :=
  let n := length x in
  map (fun k =>
         fold_left gadd
           (map (fun j => gmul (nth j x (0, 0)) (unit_root n (j * k)))
                (seq 0 n))
           (0, 0))
      (seq 0 n).

Definition magnitude (c : gq) : Q :=
  if Qeq_bool (snd c) 0 then Qabs (fst c)
  else if Qeq_bool (fst c) 0 then Qabs (snd c)
  else Qabs (fst c) + Qabs (snd c).

(** The integer part of the decimal logarithm, exact on powers of ten. *)
Fixpoint ilog10 (fuel : nat) (m : Q) : Q :=
  match fuel with
  | O => 0
  | S fuel' =>
      if Qle_bool 10 m then 1 + ilog10 fuel' (m / 10)
      else if Qle_bool 1 m then 0
      else -(1) + ilog10 fuel' (m * 10)
  end.

Definition numerics : Numerics :=
  {| complex := gq;
     cscale := gscale;
     np_fft := dft;
     np_abs := magnitude;
     log10_pos := ilog10 64 |}.

End Gaussian.

(** Concrete inputs used below: a four-sample block of constant value
    [5/2] (a pure DC signal, whose transform is [10] in bin zero and zero
    elsewhere), the all-zero block, a rectangular window, a sample rate of
    four and a threshold of 10 dB. *)
Definition cfg4 : Config :=
  {| sample_rate := 4; gain := 1; sample_size := 4; threshold_power := 10 |}.
Definition boxcar4 : list Q := [1; 1; 1; 1].
Definition dc_block : list Gaussian.gq :=
  [(5 # 2, 0); (5 # 2, 0); (5 # 2, 0); (5 # 2, 0)].
Definition zero_block : list Gaussian.gq := [(0, 0); (0, 0); (0, 0); (0, 0)].
Definition device4 : RtlSdr :=
  {| dev_sample_rate := 4; dev_gain := 1; center_freq := None |}.

(** Spectra and a result dictionary used as concrete inputs of the peak
    detector. *)
Definition spectrum_at_threshold : list npfloat := [Fin 0; Fin 5; Fin 0].
Definition spectrum_tie : list npfloat := [Fin 0; Fin 5; Fin 0; Fin 5; Fin 0].
Definition fft_one_peak : FftResult :=
  {| power := [Fin 0; Fin 15; Fin 0]; frequencies := [0; 1; -(1)] |}.

Definition fft_zero : FftResult :=
  {| power := [NInf; NInf; NInf; NInf]; frequencies := fftfreq 4 (1 / 4) |}.

Definition fft_dc : FftResult :=
  {| power := [NInf; NInf; Fin 20; NInf]; frequencies := fftfreq 4 (1 / 4) |}.

(** The record the DC block produces at clock reading 7: one peak, at index
    2, labelled with the frequency found there. *)
Definition detection_dc : Detection :=
  {| timestamp := 7;
     det_frequencies := [nth 2 (fftfreq 4 (1 / 4)) 0];
     det_powers := [Fin 20];
     confidence := _calculate_confidence cfg4 [Fin 20] |}.

(** The record [fft_one_peak] produces at clock reading 0 with the
    threshold at 10 dB. *)
Definition detection_one_peak : Detection :=
  {| timestamp := 0; det_frequencies := [1]; det_powers := [Fin 15];
     confidence := ltac:(let c := eval vm_compute in
                              (_calculate_confidence cfg4 [Fin 15]) in
                         exact c) |}.

(** A pass that raises: a sink that fails on every record. *)
Definition failing_sink (d : Detection) : outcome unit :=
  Raise SinkCallbackError.

Definition tick_dc : tick Gaussian.numerics :=
  Build_tick Gaussian.numerics (Ok dc_block) 7.
Definition tick_zero : tick Gaussian.numerics :=
  Build_tick Gaussian.numerics (Ok zero_block) 7.

(** A running engine with an opened device and the failing sink. *)
Definition engine_failing_sink : SignalProcessor :=
  {| config := cfg4; window := boxcar4; sdr := Some device4; running := true;
     processing_thread := Some Alive; callback := Some failing_sink;
     detected_signals := []; sink_calls := []; log := [] |}.


(** A frequency axis is monotone when no entry is below its predecessor. *)
Definition nondecreasing (l : list Q) : bool :=
  forallb (fun ab => Qle_bool (fst ab) (snd ab)) (combine l (tl l)).

(** ** The claims that fail on the code, as stated

    Each is written down as a proposition so that it can be refuted at a
    concrete input. *)

(** The property C2 asks for: a reported bin is strictly above the
    threshold. *)
Definition height_is_exclusive (x : list npfloat) (threshold : Q) : Prop :=
  forall p, In p (find_peaks x threshold peak_distance) ->
            flt (Fin threshold) (at_ x p) = true.


(** The property C4 asks for, on one pass: when what the pass raised came
    from the sink, the loop is still running afterwards. *)
Definition sink_failure_is_nonfatal (K : Numerics) (t : tick K)
  (st : SignalProcessor) : Prop :=
  running st = true ->
  snd (try_body K t st) = Raise SinkCallbackError ->
  running (loop_pass K t st) = true.

(** The property C5 asks for: every power value is finite. *)
Definition power_is_finite (K : Numerics) (cfg : Config) (window : list Q)
  (samples : list (complex K)) : Prop :=
  forall fr, _compute_fft K cfg window samples = Ok fr ->
             forallb is_finite (power fr) = true.


(** A spectrum with two isolated peaks, at bins 1 and 21. *)
Definition spectrum_two_far : list npfloat :=
  [Fin 0; Fin 5] ++ repeat (Fin 0) 19 ++ [Fin 5; Fin 0].

(** * The rest of the engine and its callers *)

(** ** Opening and tuning the device ([initialize_sdr], [set_frequency]) *)

(** What the driver answers: whether the device opens (and in what state),
    and whether each setting is accepted. *)
Record driver : Type := {
  open_device : outcome RtlSdr;          (* RtlSdr() *)
  accept_sample_rate : outcome unit;     (* sdr.sample_rate = ... *)
  accept_gain : outcome unit;            (* sdr.gain = ... *)
  accept_center_freq : outcome unit      (* sdr.center_freq = ... *)
}.

Definition with_sample_rate (r : Q) (dev : RtlSdr) : RtlSdr :=
  {| dev_sample_rate := r; dev_gain := dev_gain dev;
     center_freq := center_freq dev |}.

Definition with_gain (g : Q) (dev : RtlSdr) : RtlSdr :=
  {| dev_sample_rate := dev_sample_rate dev; dev_gain := g;
     center_freq := center_freq dev |}.

Definition with_center_freq (f : Q) (dev : RtlSdr) : RtlSdr :=
  {| dev_sample_rate := dev_sample_rate dev; dev_gain := dev_gain dev;
     center_freq := Some f |}.

(** The decorator [error_handler] of [utils.py]: an exception of the
    wrapped method is logged and raised again. *)
Definition error_handler {A : Type}
  (func : SignalProcessor -> SignalProcessor * outcome A)
  (st : SignalProcessor) : SignalProcessor * outcome A :=
  match func st with
  | (st', Raise e) => (add_log (LogError e) st', Raise e)
  | (st', Ok a) => (st', Ok a)
  end.

(** The body of [initialize_sdr]: each step of the [try] may raise, and the
    handler logs and returns [False]; what was assigned before the raise
    stays assigned. *)
Definition initialize_sdr_body (w : driver) (st : SignalProcessor)
  : SignalProcessor * outcome bool :=
  match open_device w with
  | Raise e => (add_log (LogError e) st, Ok false)
  | Ok dev =>
      let st := set_sdr (Some dev) st in
      match accept_sample_rate w with
      | Raise e => (add_log (LogError e) st, Ok false)
      | Ok _ =>
          let dev := with_sample_rate (sample_rate (config st)) dev in
          let st := set_sdr (Some dev) st in
          match accept_gain w with
          | Raise e => (add_log (LogError e) st, Ok false)
          | Ok _ =>
              let dev := with_gain (gain (config st)) dev in
              (add_log LogInfo (set_sdr (Some dev) st), Ok true)
          end
      end
  end.

Definition initialize_sdr (w : driver) : SignalProcessor
                                         -> SignalProcessor * outcome bool :=
  error_handler (initialize_sdr_body w).

(** [set_frequency]: with no device the method falls off its end and
    returns [None]. *)
Definition set_frequency (w : driver) (freq : Q) (st : SignalProcessor)
  : SignalProcessor * option bool :=
  match sdr st with
  | Some dev =>
      match accept_center_freq w with
      | Ok _ =>
          (add_log LogInfo (set_sdr (Some (with_center_freq freq dev)) st),
           Some true)
      | Raise e => (add_log (LogError e) st, Some false)
      end
  | None => (st, None)
  end.

(** ** Helpers of [utils.py] *)

Record FftParams : Type := {
  freq_resolution : Q;
  time_resolution : Q;
  freq_range : Q * Q
}.

(** [calculate_fft_params]: the two quotients are evaluated in this order,
    each raising on a zero divisor. *)
Definition calculate_fft_params (cfg : Config) : outcome FftParams :=
  if (sample_size cfg =? 0)%nat then Raise ZeroDivisionError
  else if Qeq_bool (sample_rate cfg) 0 then Raise ZeroDivisionError
  else Ok {| freq_resolution :=
               sample_rate cfg / inject_Z (Z.of_nat (sample_size cfg));
             time_resolution :=
               inject_Z (Z.of_nat (sample_size cfg)) / sample_rate cfg;
             freq_range := (0, sample_rate cfg / 2) |}.


Module UnitNames.
Import String.
End UnitNames.
Export UnitNames.




(** ** Alerts ([alert_system.py]) *)

Record Alert : Type := {
  alert_timestamp : nat;
  alert_detection : Detection;
  alert_report_path : option String.string
}.

(** The fields of [AlertSystem], with three ghost fields: the mails handed
    to the server, the result of every callback invocation in order, and
    the log. *)
Record AlertSystem : Type := {
  alert_history : list Alert;
  alert_callbacks : list (Alert -> outcome unit);
  mails_sent : list Alert;
  callback_results : list (outcome unit);
  alert_log : list log_entry
}.

Definition alert_init : AlertSystem :=
  {| alert_history := []; alert_callbacks := []; mails_sent := [];
     callback_results := []; alert_log := [] |}.

Definition register_callback (cb : Alert -> outcome unit) (a : AlertSystem)
  : AlertSystem :=
  {| alert_history := alert_history a;
     alert_callbacks := alert_callbacks a ++ [cb];
     mails_sent := mails_sent a;
     callback_results := callback_results a;
     alert_log := alert_log a |}.

(** [_send_email_alert]: building the message and talking to the server
    either works or raises ([mail]); every exception is caught. *)
Definition _send_email_alert (mail : outcome unit) (alert : Alert)
  (a : AlertSystem) : AlertSystem * bool :=
  match mail with
  | Ok _ =>
      ({| alert_history := alert_history a;
          alert_callbacks := alert_callbacks a;
          mails_sent := mails_sent a ++ [alert];
          callback_results := callback_results a;
          alert_log := alert_log a ++ [LogInfo] |}, true)
  | Raise e =>
      ({| alert_history := alert_history a;
          alert_callbacks := alert_callbacks a;
          mails_sent := mails_sent a;
          callback_results := callback_results a;
          alert_log := alert_log a ++ [LogError e] |}, false)
  end.

(** One turn of the loop over the callbacks: the call sits in its own
    [try], whose handler only logs. *)
Definition trigger_callback (alert : Alert) (a : AlertSystem)
  (cb : Alert -> outcome unit) : AlertSystem :=
  {| alert_history := alert_history a;
     alert_callbacks := alert_callbacks a;
     mails_sent := mails_sent a;
     callback_results := callback_results a ++ [cb alert];
     alert_log := alert_log a ++ match cb alert with
                                 | Ok _ => []
                                 | Raise e => [LogError e]
                                 end |}.

(** [str(report_path) if report_path else None]: an empty path counts as
    none. *)
Definition path_or_none (report_path : option String.string)
  : option String.string :=
  match report_path with
  | Some s => if String.eqb s String.EmptyString then None else Some s
  | None => None
  end.

(** [send_alert]: the alert is recorded, the mail attempted, the callbacks
    triggered, and [True] returned. *)
Definition send_alert (clock : nat) (mail : outcome unit)
  (detection_data : Detection) (report_path : option String.string)
  (a : AlertSystem) : AlertSystem * bool :=
  let alert := {| alert_timestamp := clock;
                  alert_detection := detection_data;
                  alert_report_path := path_or_none report_path |} in
  let a := {| alert_history := alert_history a ++ [alert];
              alert_callbacks := alert_callbacks a;
              mails_sent := mails_sent a;
              callback_results := callback_results a;
              alert_log := alert_log a |} in
  let a := fst (_send_email_alert mail alert a) in
  (fold_left (trigger_callback alert) (alert_callbacks a) a, true).

Definition get_alert_history (a : AlertSystem) : list Alert :=
  alert_history a.

Definition clear_alert_history (a : AlertSystem) : AlertSystem :=
  {| alert_history := []; alert_callbacks := alert_callbacks a;
     mails_sent := mails_sent a; callback_results := callback_results a;
     alert_log := alert_log a |}.

(** ** The monitoring button of the window ([gui.py]) *)

Inductive ui_event : Type :=
| ErrorInvalidFrequency     (* the entry is not a number *)
| ErrorDevice               (* initialize_sdr returned False *)
| ErrorFrequency            (* set_frequency returned a false value *)
| ShowMonitoring            (* button and status bar switch to monitoring *)
| ShowStopped.              (* button and status bar switch to stopped *)

(** The part of [DetectorGUI] that the button touches; [shown] lists what
    was put on the screen. *)
Record DetectorGUI : Type := {
  monitoring : bool;
  signal_processor : SignalProcessor;
  shown : list ui_event
}.

Section Window.

Variable K : Numerics.

(** [toggle_monitoring]: [entry] is the number typed in the frequency
    field, in MHz, or [None] when [float] rejects the text. *)
Definition toggle_monitoring (entry : option Q) (w : driver)
  (handle_detection : Detection -> outcome unit) (g : DetectorGUI)
  : DetectorGUI * outcome unit :=
  if negb (monitoring g) then
    match entry with
    | None =>
        ({| monitoring := monitoring g;
            signal_processor := signal_processor g;
            shown := shown g ++ [ErrorInvalidFrequency] |}, Ok tt)
    | Some mhz =>
        let freq := mhz * 1000000 in
        match initialize_sdr w (signal_processor g) with
        | (sp, Raise e) =>
            ({| monitoring := monitoring g; signal_processor := sp;
                shown := shown g |}, Raise e)
        | (sp, Ok false) =>
            ({| monitoring := monitoring g; signal_processor := sp;
                shown := shown g ++ [ErrorDevice] |}, Ok tt)
        | (sp, Ok true) =>
            match set_frequency w freq sp with
            | (sp, Some true) =>
                let sp := snd (start_processing (Some handle_detection) sp) in
                ({| monitoring := true; signal_processor := sp;
                    shown := shown g ++ [ShowMonitoring] |}, Ok tt)
            | (sp, _) =>
                ({| monitoring := monitoring g; signal_processor := sp;
                    shown := shown g ++ [ErrorFrequency] |}, Ok tt)
            end
        end
    end
  else
    match stop_processing K Controller (signal_processor g) with
    | (sp, Raise e) =>
        ({| monitoring := monitoring g; signal_processor := sp;
            shown := shown g |}, Raise e)
    | (sp, Ok _) =>
        ({| monitoring := false; signal_processor := sp;
            shown := shown g ++ [ShowStopped] |}, Ok tt)
    end.

(** [cleanup]: the engine is stopped only when the window believes it is
    monitoring. *)
Definition cleanup (g : DetectorGUI) : DetectorGUI * outcome unit :=
  if monitoring g then
    match stop_processing K Controller (signal_processor g) with
    | (sp, r) =>
        ({| monitoring := monitoring g; signal_processor := sp;
            shown := shown g |}, r)
    end
  else (g, Ok tt).

End Window.

(** Concrete answers of the driver: everything works; the device opens but
    refuses the frequency. *)
Definition driver_ok : driver :=
  {| open_device := Ok device4; accept_sample_rate := Ok tt;
     accept_gain := Ok tt; accept_center_freq := Ok tt |}.

Definition driver_no_tuning : driver :=
  {| open_device := Ok device4; accept_sample_rate := Ok tt;
     accept_gain := Ok tt; accept_center_freq := Raise ValueError |}.

Definition window_fresh : DetectorGUI :=
  {| monitoring := false; signal_processor := init cfg4 boxcar4;
     shown := [] |}.

(** ** The table of the report ([report_generator.py], [gui.py]) *)

Section Report.

(** The renderings the table uses: [timestamp_to_str], [format_frequency],
    the format [.2f] of a power and the format [.1f] of a confidence times
    one hundred, followed by a percent sign. *)
Variable cell : Type.
Variable header : list cell.
Variable show_time : nat -> cell.
Variable show_frequency : Q -> cell.
Variable show_power : npfloat -> cell.
Variable show_percent : npfloat -> cell.

(** The rows that one detection contributes: one per pair of
    [zip(signal['frequencies'], signal['powers'])].  [add_detection] of the
    window inserts the same rows in its list. *)
Definition detection_rows (signal : Detection) : list (list cell) :=
  map (fun fp => [show_time (timestamp signal);
                  show_frequency (fst fp);
                  show_power (snd fp);
                  show_percent (confidence signal)])
      (combine (det_frequencies signal) (det_powers signal)).

(** The [data] that [_create_signal_table] hands to the table widget. *)
Definition signal_table_data (detected_signals : list Detection)
  : list (list cell) :=
  header :: flat_map detection_rows detected_signals.

End Report.

(** What every record made by [_analyze_signal] satisfies. *)
Definition well_formed_record (cfg : Config) (d : Detection) : Prop :=
  length (det_frequencies d) = length (det_powers d)
  /\ det_powers d <> []
  /\ Forall (fun v => fle (Fin (threshold_power cfg)) v = true) (det_powers d)
  /\ confidence d = _calculate_confidence cfg (det_powers d).

(** ** Notions used in the proofs *)

(** A list of peak positions in non-decreasing order. *)
Definition ascending (peaks : list nat) : Prop :=
  forall a b, (a <= b < length peaks)%nat ->
              (nth a peaks O <= nth b peaks O)%nat.

(** Two positions are in conflict when their peaks are closer than the
    separation. *)
Definition too_close (peaks : list nat) (d : Z) (i j : nat) : Prop :=
  (Z.abs (Z.of_nat (nth i peaks O) - Z.of_nat (nth j peaks O)) < d)%Z.

(** A value that is a number or plus infinity. *)
Definition fin_or_pinf (v : npfloat) : Prop :=
  match v with
  | Fin _ | PInf => True
  | NaN | NInf => False
  end.

(** Position [i] does not outrank position [j]: the priority of [j] is not
    strictly below that of [i]. *)
Definition not_below (priority : list npfloat) (i j : nat) : Prop :=
  flt (at_ priority j) (at_ priority i) = false.

(** A priority that is not [NaN]. *)
Definition numeric (priority : list npfloat) (i : nat) : Prop :=
  feq (at_ priority i) (at_ priority i) = true.

(** * Properties *)

(** ** Comparisons of doubles *)

Lemma flt_Fin (a b : Q) : flt (Fin a) (Fin b) = true <-> a < b.
Proof.
  simpl. rewrite negb_true_iff. split; intro H.
  - apply Qnot_le_lt. intro Hle. apply Qle_bool_iff in Hle. congruence.
  - destruct (Qle_bool b a) eqn:E; [|reflexivity].
    apply Qle_bool_iff in E. exfalso. exact (Qlt_not_le _ _ H E).
Qed.

Lemma flt_Fin_false (a b : Q) : flt (Fin a) (Fin b) = false <-> b <= a.
Proof.
  simpl. rewrite negb_false_iff. apply Qle_bool_iff.
Qed.

Lemma feq_Fin (a b : Q) : feq (Fin a) (Fin b) = true <-> a == b.
Proof. simpl. apply Qeq_bool_iff. Qed.

Lemma fle_Fin (a b : Q) : fle (Fin a) (Fin b) = true <-> a <= b.
Proof.
  unfold fle. rewrite orb_true_iff, flt_Fin, feq_Fin. split.
  - intros [H | H]; [apply Qlt_le_weak; exact H | rewrite H; apply Qle_refl].
  - intro H. destruct (Qlt_le_dec a b) as [Hlt | Hge]; [left; exact Hlt|].
    right. apply Qle_antisym; assumption.
Qed.

Lemma flt_irrefl (a : npfloat) : flt a a = false.
Proof.
  destruct a as [| |q|]; try reflexivity.
  apply flt_Fin_false, Qle_refl.
Qed.

(** A value that passes a finite lower bound is not [NaN] and not minus
    infinity. *)
Lemma fle_Fin_l (t : Q) (v : npfloat) :
  fle (Fin t) v = true -> (exists q, v = Fin q /\ t <= q) \/ v = PInf.
Proof.
  destruct v as [| |q|]; try discriminate.
  - intro H. left. exists q. split; [reflexivity | apply fle_Fin; exact H].
  - intros _. right. reflexivity.
Qed.

(** ** Confidence *)

Lemma fold_fadd_Fin (l : list Q) (acc : Q) :
  exists s, fold_left fadd (map Fin l) (Fin acc) = Fin s
            /\ s == acc + fold_right Qplus 0 l.
Proof.
  revert acc. induction l as [|q l IH]; intro acc; simpl.
  - exists acc. split; [reflexivity | ring].
  - destruct (IH (acc + q)) as [s [Hs Heq]].
    exists s. split; [exact Hs | rewrite Heq; ring].
Qed.

Lemma count_positive {A : Type} (l : list A) :
  l <> [] -> 0 < inject_Z (Z.of_nat (length l)).
Proof.
  intro H. destruct l as [|a l]; [congruence|].
  change 0 with (inject_Z 0). rewrite <- Zlt_Qlt. simpl length. lia.
Qed.

Lemma np_mean_Fin (l : list Q) :
  l <> [] -> exists m, np_mean (map Fin l) = Fin m /\ m == Qmean l.
Proof.
  intro Hne. unfold np_mean, np_sum, Qmean.
  destruct (fold_fadd_Fin l 0) as [s [Hs Heq]].
  rewrite Hs, length_map.
  pose proof (count_positive l Hne) as Hpos.
  unfold fdiv.
  destruct (Qcompare_spec (inject_Z (Z.of_nat (length l))) 0) as [E | E | E].
  - rewrite E in Hpos. exfalso. exact (Qlt_irrefl _ Hpos).
  - exfalso. exact (Qlt_irrefl _ (Qlt_trans _ _ _ Hpos E)).
  - exists (s / inject_Z (Z.of_nat (length l))). split; [reflexivity|].
    rewrite Heq. rewrite Qplus_0_l. reflexivity.
Qed.

(** The two Python builtins, on finite values, are a clamp. *)
Lemma clamp_unit_cases (r : Q) :
  (r < 0 /\ clamp r 0 1 == 0) \/ (0 <= r <= 1 /\ clamp r 0 1 == r)
  \/ (1 < r /\ clamp r 0 1 == 1).
Proof.
  unfold clamp.
  destruct (Q.max_spec r 0) as [[H1 H2] | [H1 H2]];
    destruct (Q.min_spec (Qmax r 0) 1) as [[H3 H4] | [H3 H4]];
    destruct (Qlt_le_dec 1 r) as [H5 | H5];
    try (left; split; lra); try (right; left; split; lra);
    try (right; right; split; lra).
Qed.

Lemma py_clamp_Fin (r : Q) :
  exists c, py_min (py_max (Fin r) (Fin 0)) (Fin 1) = Fin c
            /\ c == clamp r 0 1 /\ 0 <= c /\ c <= 1.
Proof.
  unfold py_min, py_max.
  destruct (clamp_unit_cases r) as [[H E] | [[H E] | [H E]]].
  - assert (E0 : flt (Fin r) (Fin 0) = true) by (apply flt_Fin; exact H).
    rewrite E0.
    assert (E1 : flt (Fin 1) (Fin 0) = false) by reflexivity.
    rewrite E1. exists 0. split; [reflexivity|]. lra.
  - assert (E0 : flt (Fin r) (Fin 0) = false) by (apply flt_Fin_false; lra).
    rewrite E0.
    assert (E1 : flt (Fin 1) (Fin r) = false) by (apply flt_Fin_false; lra).
    rewrite E1. exists r. split; [reflexivity|]. lra.
  - assert (E0 : flt (Fin r) (Fin 0) = false) by (apply flt_Fin_false; lra).
    rewrite E0.
    assert (E1 : flt (Fin 1) (Fin r) = true) by (apply flt_Fin; exact H).
    rewrite E1. exists 1. split; [reflexivity|]. lra.
Qed.

Lemma Qabs_positive (t : Q) : ~ t == 0 -> 0 < Qabs t.
Proof.
  intro H. apply Qabs_case; intro Hs; lra.
Qed.

(** The raw score before clamping, on finite peak powers. *)
Lemma raw_confidence_Fin (cfg : Config) (qs : list Q) :
  qs <> [] -> ~ threshold_power cfg == 0 ->
  exists r,
    fdiv (fsub (np_mean (map Fin qs)) (Fin (threshold_power cfg)))
         (Qabs (threshold_power cfg)) = Fin r
    /\ r == (Qmean qs - threshold_power cfg) / Qabs (threshold_power cfg).
Proof.
  intros Hne Hthr.
  destruct (np_mean_Fin qs Hne) as [m [Hm Em]].
  rewrite Hm. simpl fsub. unfold fdiv.
  pose proof (Qabs_positive _ Hthr) as Hpos.
  destruct (Qcompare_spec (Qabs (threshold_power cfg)) 0) as [E | E | E];
    try lra.
  eexists. split; [reflexivity|].
  unfold Qminus. rewrite Em. reflexivity.
Qed.

Lemma calculate_confidence_Fin (cfg : Config) (qs : list Q) :
  qs <> [] -> ~ threshold_power cfg == 0 ->
  exists c, _calculate_confidence cfg (map Fin qs) = Fin c
            /\ c == spec_confidence (threshold_power cfg) qs
            /\ 0 <= c /\ c <= 1.
Proof.
  intros Hne Hthr. unfold _calculate_confidence, spec_confidence.
  destruct (raw_confidence_Fin cfg qs Hne Hthr) as [r [Hr Er]].
  rewrite Hr.
  destruct (py_clamp_Fin r) as [c [Hc [Ec Hb]]].
  exists c. split; [exact Hc|]. split; [|exact Hb].
  rewrite Ec. unfold clamp. rewrite Er. reflexivity.
Qed.

(** ** What a detection is made of *)

Lemma index_all_length {A : Type} (a : list A) (peaks : list nat)
  (vs : list A) :
  index_all a peaks = Ok vs -> length vs = length peaks.
Proof.
  revert vs. induction peaks as [|p peaks IH]; intros vs H; simpl in H.
  - injection H as <-. reflexivity.
  - destruct (nth_error a p) as [v|]; [|discriminate].
    destruct (index_all a peaks) as [vs'|e]; simpl in H; [|discriminate].
    injection H as <-. simpl. f_equal. apply IH. reflexivity.
Qed.

Lemma analyze_signal_detection (cfg : Config) (now : nat) (fr : FftResult)
  (store store' : list Detection) (d : Detection) :
  _analyze_signal cfg now fr store = Ok (Some d, store') ->
  find_peaks (power fr) (threshold_power cfg) peak_distance <> []
  /\ index_all (power fr)
       (find_peaks (power fr) (threshold_power cfg) peak_distance)
     = Ok (det_powers d)
  /\ det_powers d <> []
  /\ timestamp d = now
  /\ confidence d = _calculate_confidence cfg (det_powers d)
  /\ store' = store ++ [d].
Proof.
  unfold _analyze_signal. intro H.
  destruct (find_peaks (power fr) (threshold_power cfg) peak_distance)
    as [|p peaks] eqn:Epeaks; cbn [length Nat.ltb Nat.leb] in H;
    [discriminate|].
  destruct (index_all (frequencies fr) (p :: peaks)) as [fs|e];
    cbn [bind] in H; [|discriminate].
  destruct (index_all (power fr) (p :: peaks)) as [ps|e] eqn:Eps;
    cbn [bind] in H; [|discriminate].
  injection H as <- <-. simpl.
  apply index_all_length in Eps.
  repeat split; try reflexivity; try discriminate.
  destruct ps; [discriminate Eps | discriminate].
Qed.

Lemma analyze_signal_no_peak (cfg : Config) (now : nat) (fr : FftResult)
  (store : list Detection) :
  find_peaks (power fr) (threshold_power cfg) peak_distance = [] ->
  _analyze_signal cfg now fr store = Ok (None, store).
Proof.
  unfold _analyze_signal. intros ->. reflexivity.
Qed.

(** C6.  In an analysis pass that reports a detection, with a non-zero
    threshold, the confidence is the clamp to [0,1] of
    [(mean(accepted powers) - threshold) / |threshold|]; so it lies in
    [0,1].  The accepted powers are finite values [qs]. *)
Theorem confidence_is_clamped_score (cfg : Config) (now : nat)
  (fr : FftResult) (store store' : list Detection) (d : Detection)
  (qs : list Q) :
  _analyze_signal cfg now fr store = Ok (Some d, store') ->
  det_powers d = map Fin qs ->
  ~ threshold_power cfg == 0 ->
  exists c, confidence d = Fin c
            /\ c == spec_confidence (threshold_power cfg) qs
            /\ 0 <= c /\ c <= 1.
Proof.
  intros Hd Hqs Hthr.
  destruct (analyze_signal_detection _ _ _ _ _ _ Hd)
    as [_ [_ [Hne [_ [Hconf _]]]]].
  rewrite Hconf, Hqs. apply calculate_confidence_Fin; [|exact Hthr].
  intro E. apply Hne. rewrite Hqs, E. reflexivity.
Qed.

Lemma confidence_is_clamped_score_witness :
  exists c, confidence detection_one_peak = Fin c
            /\ c == spec_confidence (threshold_power cfg4) [15]
            /\ 0 <= c /\ c <= 1.
Proof.
  apply (confidence_is_clamped_score cfg4 0%nat fft_one_peak []
           [detection_one_peak] detection_one_peak [15]).
  - vm_compute. reflexivity.
  - reflexivity.
  - simpl. intro H. discriminate H.
Defined.




(** ** Peak detector *)

Lemma mask_In {A : Type} (l : list A) (keep : list bool) (a : A) :
  In a (mask l keep) -> In a l.
Proof.
  revert keep. induction l as [|b l IH]; intros keep H; simpl in H.
  - contradiction.
  - destruct keep as [|k keep]; [contradiction|].
    destruct k; simpl in H.
    + destruct H as [-> | H]; [left; reflexivity | right; eapply IH; exact H].
    + right. eapply IH. exact H.
Qed.

(** A candidate meets the height condition, which is inclusive. *)
Lemma select_by_property_In (x : list npfloat) (peaks : list nat) (h : Q)
  (p : nat) :
  In p (mask peaks (_select_by_property (map (at_ x) peaks) h)) ->
  fle (Fin h) (at_ x p) = true.
Proof.
  induction peaks as [|q peaks IH]; simpl; intro H.
  - contradiction.
  - destruct (fle (Fin h) (at_ x q)) eqn:E; simpl in H.
    + destruct H as [<- | H]; [exact E | apply IH; exact H].
    + apply IH. exact H.
Qed.

Lemma candidates_height (x : list npfloat) (h : Q) (p : nat) :
  In p (candidates x h) -> fle (Fin h) (at_ x p) = true.
Proof. apply select_by_property_In. Qed.

Lemma find_peaks_candidates (x : list npfloat) (h : Q) (d p : nat) :
  In p (find_peaks x h d) -> In p (candidates x h).
Proof. unfold find_peaks. apply mask_In. Qed.

(** Without a strict rise there is no local maximum. *)
Lemma local_maxima_no_rise (x : list npfloat) :
  (forall i, flt (at_ x (i - 1)) (at_ x i) = false) ->
  forall fuel i i_max, local_maxima_loop fuel x i i_max = [].
Proof.
  intros Hflat fuel. induction fuel as [|fuel IH]; intros i i_max; simpl.
  - reflexivity.
  - destruct (i <? i_max)%nat; [|reflexivity].
    rewrite Hflat. apply IH.
Qed.

Lemma at_repeat (c : npfloat) (n i : nat) :
  at_ (repeat c n) i = c \/ at_ (repeat c n) i = NaN.
Proof.
  unfold at_. revert i. induction n as [|n IH]; intro i; simpl.
  - right. destruct i; reflexivity.
  - destruct i as [|i]; [left; reflexivity | apply IH].
Qed.

Lemma flt_NaN_r (a : npfloat) : flt a NaN = false.
Proof. destruct a; reflexivity. Qed.

Lemma flat_spectrum_no_peak (c : npfloat) (n : nat) (h : Q) (d : nat) :
  find_peaks (repeat c n) h d = [].
Proof.
  unfold find_peaks, candidates, _local_maxima_1d.
  rewrite local_maxima_no_rise; [reflexivity|].
  intro i.
  destruct (at_repeat c n (i - 1)) as [-> | ->];
    destruct (at_repeat c n i) as [-> | ->];
    try reflexivity; try apply flt_irrefl; apply flt_NaN_r.
Qed.

(** The iteration budget of [_local_maxima_1d] is never what ends the scan:
    any budget above [i_max - i] gives the same maxima. *)
Lemma skip_plateau_ge (fuel : nat) (x : list npfloat) (xi : npfloat)
  (i_ahead i_max : nat) :
  (i_ahead <= skip_plateau fuel x xi i_ahead i_max)%nat.
Proof.
  revert i_ahead. induction fuel as [|fuel IH]; intro i_ahead; simpl.
  - lia.
  - destruct ((i_ahead <? i_max)%nat && feq (at_ x i_ahead) xi); [|lia].
    specialize (IH (S i_ahead)). lia.
Qed.

Lemma skip_plateau_fuel (x : list npfloat) (xi : npfloat) (i_max : nat) :
  forall f1 f2 i_ahead,
    (i_max - i_ahead <= f1)%nat -> (i_max - i_ahead <= f2)%nat ->
    skip_plateau f1 x xi i_ahead i_max = skip_plateau f2 x xi i_ahead i_max.
Proof.
  induction f1 as [|f1 IH]; intros f2 i_ahead H1 H2.
  - destruct f2 as [|f2]; [reflexivity|]. simpl.
    assert (E : (i_ahead <? i_max)%nat = false) by (apply Nat.ltb_ge; lia).
    rewrite E. reflexivity.
  - destruct f2 as [|f2]; simpl.
    + assert (E : (i_ahead <? i_max)%nat = false) by (apply Nat.ltb_ge; lia).
      rewrite E. reflexivity.
    + destruct (i_ahead <? i_max)%nat eqn:E; [|reflexivity].
      destruct (feq (at_ x i_ahead) xi); [|reflexivity].
      simpl. apply IH; lia.
Qed.

Lemma local_maxima_loop_fuel (x : list npfloat) (i_max : nat) :
  forall f1 f2 i,
    (i_max - i < f1)%nat -> (i_max - i < f2)%nat ->
    local_maxima_loop f1 x i i_max = local_maxima_loop f2 x i i_max.
Proof.
  induction f1 as [|f1 IH]; intros f2 i H1 H2; [lia|].
  destruct f2 as [|f2]; [lia|]. simpl.
  destruct (i <? i_max)%nat eqn:E; [|reflexivity].
  apply Nat.ltb_lt in E.
  pose proof (skip_plateau_ge (i_max - S i) x (at_ x i) (S i) i_max) as Hge.
  destruct (flt (at_ x (i - 1)) (at_ x i)).
  - destruct (flt _ (at_ x i)).
    + f_equal. apply IH; lia.
    + apply IH; lia.
  - apply IH; lia.
Qed.

Lemma local_maxima_budget (x : list npfloat) (extra : nat) :
  local_maxima_loop (length x + extra) x 1 (length x - 1) = _local_maxima_1d x.
Proof.
  unfold _local_maxima_1d. destruct x as [|a x].
  - destruct extra; reflexivity.
  - apply local_maxima_loop_fuel; simpl; lia.
Qed.

(** C2 as stated fails: with the threshold at 5, the spectrum [0, 5, 0]
    reports bin 1, whose power equals the threshold. *)
Lemma height_is_inclusive_counterexample :
  ~ height_is_exclusive spectrum_at_threshold 5.
Proof.
  intro H. specialize (H 1%nat).
  assert (E : flt (Fin 5) (at_ spectrum_at_threshold 1) = false)
    by (vm_compute; reflexivity).
  rewrite H in E; [discriminate|].
  vm_compute. left. reflexivity.
Qed.

(** C2, amended.  A reported bin has power greater than or equal to the
    threshold (the comparison is inclusive); and a flat spectrum, at the
    threshold or at any other level, yields no detection and leaves the
    store as it was. *)
Theorem height_is_inclusive (cfg : Config) (x : list npfloat) :
  (forall p, In p (find_peaks x (threshold_power cfg) peak_distance) ->
             fle (Fin (threshold_power cfg)) (at_ x p) = true)
  /\ (forall (c : npfloat) (n now : nat) (freqs : list Q)
             (store : list Detection),
        _analyze_signal cfg now {| power := repeat c n; frequencies := freqs |}
                        store = Ok (None, store)).
Proof.
  split.
  - intros p H. eapply candidates_height, find_peaks_candidates. exact H.
  - intros c n now freqs store. apply analyze_signal_no_peak.
    apply flat_spectrum_no_peak.
Qed.

Lemma height_is_inclusive_witness :
  fle (Fin (threshold_power cfg4)) (at_ fft_one_peak.(power) 1) = true
  /\ _analyze_signal cfg4 0
       {| power := repeat (Fin 10) 4; frequencies := [0; 1; -(2); -(1)] |} []
     = Ok (None, []).
Proof.
  destruct (height_is_inclusive cfg4 fft_one_peak.(power)) as [Ha Hb].
  split.
  - apply Ha. vm_compute. left. reflexivity.
  - apply Hb.
Defined.

(** *** Two candidates closer than the separation *)


Lemma fle_Fin_self (t : Q) (v : npfloat) :
  fle (Fin t) v = true -> feq v v = true.
Proof.
  intro H. destruct (fle_Fin_l t v H) as [[q [-> _]] | ->].
  - apply feq_Fin. reflexivity.
  - reflexivity.
Qed.





(** ** Spectral transform *)

Lemma nondecreasing_descent (l1 l2 : list Q) (a b : Q) :
  b < a -> nondecreasing (l1 ++ a :: b :: l2) = false.
Proof.
  intro H. unfold nondecreasing.
  induction l1 as [|c l1 IH].
  - cbn. destruct (Qle_bool a b) eqn:E; [|reflexivity].
    apply Qle_bool_iff in E. lra.
  - destruct l1 as [|c' l1]; cbn in *; rewrite IH; apply andb_false_r.
Qed.

(** The unshifted axis of two or more bins always steps down, from the last
    non-negative bin to the most negative one. *)
Lemma fftfreq_descends (n : nat) (d : Q) :
  (2 <= n)%nat -> 0 < d -> nondecreasing (fftfreq n d) = false.
Proof.
  intros Hn Hd. unfold fftfreq, fftfreq_bins.
  assert (Hhalf : (1 <= n / 2)%nat)
    by (apply (Nat.div_le_lower_bound n 2 1); lia).
  rewrite Nat.add_1_r, seq_S, Nat.add_0_l.
  destruct (n / 2)%nat as [|h] eqn:Eh; [lia|].
  cbn [seq map]. rewrite !map_app. cbn [map]. rewrite <- app_assoc.
  cbn [app]. apply nondecreasing_descent.
  set (val := 1 / (inject_Z (Z.of_nat n) * d)).
  assert (Hval : 0 < val).
  { unfold val. unfold Qdiv. rewrite Qmult_1_l. apply Qinv_lt_0_compat.
    apply Qmult_lt_0_compat; [|exact Hd].
    change 0 with (inject_Z 0). rewrite <- Zlt_Qlt. lia. }
  assert (Hneg : inject_Z (Z.of_nat 0 - Z.of_nat (S h)) < inject_Z 0)
    by (rewrite <- Zlt_Qlt; lia).
  assert (Hpos : inject_Z 0 <= inject_Z (Z.of_nat ((n - 1) / 2)))
    by (rewrite <- Zle_Qle; lia).
  change (inject_Z 0) with 0 in Hneg, Hpos.
  nra.
Qed.

Section TransformProperties.

Variable K : Numerics.

Lemma apply_window_same_length (samples : list (complex K)) (window : list Q) :
  length samples = length window ->
  apply_window K samples window = Ok (zip_window K samples window).
Proof.
  intro H. unfold apply_window. rewrite H, Nat.eqb_refl. reflexivity.
Qed.

Lemma zip_window_nonempty (samples : list (complex K)) (window : list Q) :
  length samples = length window -> samples <> [] ->
  zip_window K samples window <> [].
Proof.
  intros H Hne. destruct samples as [|s samples]; [congruence|].
  destruct window as [|w window]; [discriminate H|]. discriminate.
Qed.

(** What [_compute_fft] returns when it returns: the powers are those of the
    shifted transform, the frequency axis is [fftfreq] as it comes, in the
    unshifted order. *)
Lemma compute_fft_result (cfg : Config) (window : list Q)
  (samples : list (complex K)) (fr : FftResult) :
  _compute_fft K cfg window samples = Ok fr ->
  exists windowed,
    apply_window K samples window = Ok windowed
    /\ power fr = map (power_db K) (fftshift (np_fft K windowed))
    /\ frequencies fr = fftfreq (length samples) (1 / sample_rate cfg).
Proof.
  unfold _compute_fft. intro H.
  destruct (apply_window K samples window) as [windowed|e]; cbn [bind] in H;
    [|discriminate].
  exists windowed. split; [reflexivity|].
  destruct windowed as [|c windowed]; cbn [bind] in H; [discriminate|].
  destruct (Qeq_bool (sample_rate cfg) 0); cbn [bind] in H; [discriminate|].
  injection H as <-. split; reflexivity.
Qed.

Lemma compute_fft_axis_descends (cfg : Config) (window : list Q)
  (samples : list (complex K)) (fr : FftResult) :
  (2 <= length samples)%nat -> 0 < sample_rate cfg ->
  _compute_fft K cfg window samples = Ok fr ->
  nondecreasing (frequencies fr) = false.
Proof.
  intros Hn Hrate H.
  destruct (compute_fft_result _ _ _ _ H) as [w [_ [_ ->]]].
  apply fftfreq_descends; [exact Hn|].
  unfold Qdiv. rewrite Qmult_1_l. apply Qinv_lt_0_compat. exact Hrate.
Qed.

Lemma power_db_zero (c : complex K) :
  np_abs K c == 0 -> power_db K c = NInf.
Proof.
  intro H. unfold power_db, np_log10.
  rewrite (proj1 (Qeq_alt _ _) H). reflexivity.
Qed.

Lemma power_db_positive (c : complex K) :
  0 < np_abs K c -> is_finite (power_db K c) = true.
Proof.
  intro H. unfold power_db, np_log10.
  rewrite (proj1 (Qgt_alt (np_abs K c) 0) H). reflexivity.
Qed.

(** C5, amended.  For a non-empty block as long as the window and a
    non-zero sample rate, [_compute_fft] returns without raising.  The
    magnitude reaches the logarithm unclamped: a bin of zero magnitude has
    power minus infinity, a bin of positive magnitude a finite one. *)
Theorem compute_fft_returns_unclamped (cfg : Config) (window : list Q)
  (samples : list (complex K)) :
  length samples = length window ->
  samples <> [] ->
  ~ sample_rate cfg == 0 ->
  exists fr,
    _compute_fft K cfg window samples = Ok fr
    /\ power fr
       = map (power_db K) (fftshift (np_fft K (zip_window K samples window)))
    /\ (forall c, np_abs K c == 0 -> power_db K c = NInf)
    /\ (forall c, 0 < np_abs K c -> is_finite (power_db K c) = true).
Proof.
  intros Hlen Hne Hrate. unfold _compute_fft.
  rewrite (apply_window_same_length _ _ Hlen). cbn [bind].
  pose proof (zip_window_nonempty _ _ Hlen Hne) as Hw.
  destruct (zip_window K samples window) as [|c l] eqn:E; [congruence|].
  cbn [bind].
  destruct (Qeq_bool (sample_rate cfg) 0) eqn:Er.
  - apply Qeq_bool_iff in Er. contradiction.
  - cbn [bind]. eexists. split; [reflexivity|].
    split; [reflexivity|].
    split; [apply power_db_zero | apply power_db_positive].
Qed.

End TransformProperties.

(** C5 as stated fails: the all-zero block has zero magnitude in every bin
    and its power spectrum is minus infinity throughout. *)
Lemma zero_block_power_counterexample :
  ~ power_is_finite Gaussian.numerics cfg4 boxcar4 zero_block.
Proof.
  intro H.
  specialize (H {| power := [NInf; NInf; NInf; NInf];
                   frequencies := fftfreq 4 (1 / 4) |}).
  assert (E : _compute_fft Gaussian.numerics cfg4 boxcar4 zero_block
              = Ok {| power := [NInf; NInf; NInf; NInf];
                      frequencies := fftfreq 4 (1 / 4) |})
    by (vm_compute; reflexivity).
  specialize (H E). discriminate H.
Qed.

Lemma compute_fft_returns_unclamped_witness :
  exists fr,
    _compute_fft Gaussian.numerics cfg4 boxcar4 zero_block = Ok fr
    /\ power fr
       = map (power_db Gaussian.numerics)
           (fftshift (np_fft Gaussian.numerics
                        (zip_window Gaussian.numerics zero_block boxcar4)))
    /\ (forall c, np_abs Gaussian.numerics c == 0 ->
                  power_db Gaussian.numerics c = NInf)
    /\ (forall c, 0 < np_abs Gaussian.numerics c ->
                  is_finite (power_db Gaussian.numerics c) = true).
Proof.
  apply (compute_fft_returns_unclamped Gaussian.numerics cfg4 boxcar4
           zero_block).
  - reflexivity.
  - discriminate.
  - simpl. intro H. discriminate H.
Defined.

(** C1.  The code at a four-sample DC block, rate 4: the power is shifted
    (the DC bin sits at index 2) while the frequency axis is [fftfreq] left
    unshifted, [0, 1, -2, -1]; index 2 is labelled [-2], the axis is not
    non-decreasing, and it differs from the shifted axis [-2, -1, 0, 1]
    that would match the powers. *)
Theorem frequency_axis_left_unshifted :
  exists fr,
    _compute_fft Gaussian.numerics cfg4 boxcar4 dc_block = Ok fr
    /\ power fr = [NInf; NInf; Fin 20; NInf]
    /\ frequencies fr = fftfreq 4 (1 / 4)
    /\ map Qred (frequencies fr) = [0; 1; -(2); -(1)]
    /\ map Qred (fftshift (fftfreq 4 (1 / 4))) = [-(2); -(1); 0; 1]
    /\ nondecreasing (frequencies fr) = false
    /\ nondecreasing (fftshift (fftfreq 4 (1 / 4))) = true.
Proof.
  eexists. split; [vm_compute; reflexivity|].
  repeat split; vm_compute; reflexivity.
Qed.

(** ** Monitor loop *)

Lemma set_detected_same (st : SignalProcessor) :
  set_detected (detected_signals st) st = st.
Proof. destruct st; reflexivity. Qed.


Section MonitorProperties.

Variable K : Numerics.

(** C8.  In a pass whose spectrum has no surviving peak, [_analyze_signal]
    returns [None] with the store as it was, and the whole pass leaves the
    engine unchanged: no record is created or stored, the sink is not
    called, nothing is logged and the loop keeps running. *)
Theorem no_peak_no_detection (t : tick K) (st : SignalProcessor)
  (samples : list (complex K)) (fr : FftResult) :
  read t = Ok samples ->
  _compute_fft K (config st) (window st) samples = Ok fr ->
  find_peaks (power fr) (threshold_power (config st)) peak_distance = [] ->
  _analyze_signal (config st) (now t) fr (detected_signals st)
  = Ok (None, detected_signals st)
  /\ loop_pass K t st = st
  /\ detected_signals (loop_pass K t st) = detected_signals st
  /\ sink_calls (loop_pass K t st) = sink_calls st.
Proof.
  intros Hread Hfft Hpeaks.
  pose proof (analyze_signal_no_peak (config st) (now t) fr
                (detected_signals st) Hpeaks) as Hnone.
  assert (Hpass : loop_pass K t st = st).
  { unfold loop_pass, try_body. rewrite Hread, Hfft, Hnone.
    cbn. apply set_detected_same. }
  split; [exact Hnone|]. split; [exact Hpass|].
  rewrite Hpass. split; reflexivity.
Qed.

(** C4, amended.  When the sink raises on the record of a pass, the error
    is logged and the loop ends: [running] is cleared, the record stays in
    the store, and the blocks still to come are never pulled. *)
Theorem sink_failure_ends_loop (t : tick K) (ticks : list (tick K))
  (st : SignalProcessor) (dev : RtlSdr) (samples : list (complex K))
  (fr : FftResult) (d : Detection) (store : list Detection)
  (cb : Detection -> outcome unit) (e : exn) :
  running st = true ->
  sdr st = Some dev ->
  read t = Ok samples ->
  _compute_fft K (config st) (window st) samples = Ok fr ->
  _analyze_signal (config st) (now t) fr (detected_signals st)
  = Ok (Some d, store) ->
  callback st = Some cb ->
  cb d = Raise e ->
  running (loop_pass K t st) = false
  /\ log (loop_pass K t st) = log st ++ [LogError e]
  /\ detected_signals (loop_pass K t st) = detected_signals st ++ [d]
  /\ sink_calls (loop_pass K t st) = sink_calls st ++ [d]
  /\ _processing_loop K (t :: ticks) st
     = (set_thread (Some Finished) (loop_pass K t st), ticks).
Proof.
  intros Hrun Hsdr Hread Hfft Han Hcb Hraise.
  destruct (analyze_signal_detection _ _ _ _ _ _ Han)
    as [_ [_ [_ [_ [_ Hstore]]]]].
  assert (Hpass : loop_pass K t st
                  = on_exception e (add_sink_call d (set_detected store st))).
  { unfold loop_pass, try_body. rewrite Hread, Hfft, Han.
    cbn [callback set_detected]. rewrite Hcb, Hraise. reflexivity. }
  assert (Hstop : running (loop_pass K t st) = false)
    by (rewrite Hpass; reflexivity).
  split; [exact Hstop|].
  split; [rewrite Hpass; reflexivity|].
  split; [rewrite Hpass; cbn; exact Hstore|].
  split; [rewrite Hpass; reflexivity|].
  cbn [_processing_loop]. rewrite Hrun, Hsdr.
  destruct ticks as [|t' ticks]; cbn [_processing_loop]; rewrite Hstop;
    reflexivity.
Qed.


(** C10.  Started with no device opened, [start_processing] returns [True]
    and sets [running]; the loop then raises before reading anything, logs
    the error, clears [running] and returns, with the store and the sink
    untouched. *)
Theorem start_without_device (cb : option (Detection -> outcome unit))
  (ticks : list (tick K)) (st : SignalProcessor) :
  running st = false ->
  sdr st = None ->
  exists st1,
    start_processing cb st = (true, st1)
    /\ running st1 = true
    /\ processing_thread st1 = Some Alive
    /\ snd (_processing_loop K ticks st1) = ticks
    /\ running (fst (_processing_loop K ticks st1)) = false
    /\ processing_thread (fst (_processing_loop K ticks st1)) = Some Finished
    /\ log (fst (_processing_loop K ticks st1))
       = log st ++ [LogError AttributeError]
    /\ detected_signals (fst (_processing_loop K ticks st1))
       = detected_signals st
    /\ sink_calls (fst (_processing_loop K ticks st1)) = sink_calls st.
Proof.
  intros Hrun Hsdr. unfold start_processing. rewrite Hrun.
  eexists. split; [reflexivity|].
  split; [reflexivity|]. split; [reflexivity|].
  destruct ticks as [|t ticks]; cbn; rewrite Hsdr; cbn;
    repeat split; reflexivity.
Qed.

End MonitorProperties.

(** C4 as stated fails: on a DC block above the threshold, with a sink
    that raises, the pass ends with [running] cleared. *)
Lemma sink_failure_counterexample :
  ~ sink_failure_is_nonfatal Gaussian.numerics tick_dc engine_failing_sink.
Proof.
  intro H.
  assert (E : running (loop_pass Gaussian.numerics tick_dc engine_failing_sink)
              = false) by (vm_compute; reflexivity).
  rewrite H in E; [discriminate | reflexivity | vm_compute; reflexivity].
Qed.

Lemma no_peak_no_detection_witness :
  _analyze_signal (config engine_failing_sink) (now tick_zero) fft_zero
                  (detected_signals engine_failing_sink)
  = Ok (None, detected_signals engine_failing_sink)
  /\ loop_pass Gaussian.numerics tick_zero engine_failing_sink
     = engine_failing_sink
  /\ detected_signals
       (loop_pass Gaussian.numerics tick_zero engine_failing_sink)
     = detected_signals engine_failing_sink
  /\ sink_calls (loop_pass Gaussian.numerics tick_zero engine_failing_sink)
     = sink_calls engine_failing_sink.
Proof.
  apply (no_peak_no_detection Gaussian.numerics tick_zero engine_failing_sink
           zero_block fft_zero).
  - reflexivity.
  - vm_compute. reflexivity.
  - vm_compute. reflexivity.
Defined.

Lemma sink_failure_ends_loop_witness :
  running (loop_pass Gaussian.numerics tick_dc engine_failing_sink) = false
  /\ log (loop_pass Gaussian.numerics tick_dc engine_failing_sink)
     = log engine_failing_sink ++ [LogError SinkCallbackError]
  /\ detected_signals (loop_pass Gaussian.numerics tick_dc engine_failing_sink)
     = detected_signals engine_failing_sink ++ [detection_dc]
  /\ sink_calls (loop_pass Gaussian.numerics tick_dc engine_failing_sink)
     = sink_calls engine_failing_sink ++ [detection_dc]
  /\ _processing_loop Gaussian.numerics (tick_dc :: [tick_dc; tick_zero])
       engine_failing_sink
     = (set_thread (Some Finished)
          (loop_pass Gaussian.numerics tick_dc engine_failing_sink),
        [tick_dc; tick_zero]).
Proof.
  apply (sink_failure_ends_loop Gaussian.numerics tick_dc [tick_dc; tick_zero]
           engine_failing_sink device4 dc_block fft_dc detection_dc
           [detection_dc] failing_sink SinkCallbackError).
  - reflexivity.
  - reflexivity.
  - reflexivity.
  - vm_compute. reflexivity.
  - vm_compute. reflexivity.
  - reflexivity.
  - reflexivity.
Defined.


Lemma start_without_device_witness :
  exists st1,
    start_processing (Some failing_sink) (init cfg4 boxcar4) = (true, st1)
    /\ running st1 = true
    /\ processing_thread st1 = Some Alive
    /\ snd (_processing_loop Gaussian.numerics [tick_dc] st1) = [tick_dc]
    /\ running (fst (_processing_loop Gaussian.numerics [tick_dc] st1)) = false
    /\ processing_thread
         (fst (_processing_loop Gaussian.numerics [tick_dc] st1))
       = Some Finished
    /\ log (fst (_processing_loop Gaussian.numerics [tick_dc] st1))
       = log (init cfg4 boxcar4) ++ [LogError AttributeError]
    /\ detected_signals (fst (_processing_loop Gaussian.numerics [tick_dc] st1))
       = detected_signals (init cfg4 boxcar4)
    /\ sink_calls (fst (_processing_loop Gaussian.numerics [tick_dc] st1))
       = sink_calls (init cfg4 boxcar4).
Proof.
  apply (start_without_device Gaussian.numerics (Some failing_sink) [tick_dc]
           (init cfg4 boxcar4)).
  - reflexivity.
  - reflexivity.
Defined.

(** * Further properties of the peak detector *)

(** ** Where local maxima can lie *)

Lemma skip_plateau_le (fuel : nat) (x : list npfloat) (xi : npfloat)
  (i_ahead i_max : nat) :
  (i_ahead <= i_max)%nat ->
  (skip_plateau fuel x xi i_ahead i_max <= i_max)%nat.
Proof.
  revert i_ahead. induction fuel as [|fuel IH]; intros i_ahead H; simpl.
  - exact H.
  - destruct (i_ahead <? i_max)%nat eqn:E; simpl; [|exact H].
    destruct (feq (at_ x i_ahead) xi); [|exact H].
    apply IH. apply Nat.ltb_lt in E. lia.
Qed.

Lemma local_maxima_loop_sorted (x : list npfloat) (i_max : nat) :
  forall fuel i,
    StronglySorted lt (local_maxima_loop fuel x i i_max)
    /\ Forall (fun p => (i <= p < i_max)%nat)
              (local_maxima_loop fuel x i i_max).
Proof.
  induction fuel as [|fuel IH]; intro i; cbn [local_maxima_loop].
  - split; constructor.
  - destruct (i <? i_max)%nat eqn:E; [|split; constructor].
    apply Nat.ltb_lt in E.
    assert (Hnext : StronglySorted lt (local_maxima_loop fuel x (S i) i_max)
                    /\ Forall (fun p => (i <= p < i_max)%nat)
                              (local_maxima_loop fuel x (S i) i_max)).
    { destruct (IH (S i)) as [Hs Hb]. split; [exact Hs|].
      eapply Forall_impl; [|exact Hb]. intros p Hp. cbv beta in *. lia. }
    destruct (flt (at_ x (i - 1)) (at_ x i)); [|exact Hnext].
    pose proof (skip_plateau_ge (i_max - S i) x (at_ x i) (S i) i_max) as Hge.
    pose proof (skip_plateau_le (i_max - S i) x (at_ x i) (S i) i_max E) as Hle.
    set (i_ahead := skip_plateau (i_max - S i) x (at_ x i) (S i) i_max) in *.
    destruct (flt (at_ x i_ahead) (at_ x i)); [|exact Hnext].
    destruct (IH (S i_ahead)) as [Hs Hb].
    assert (Hmid : (i <= (i + (i_ahead - 1)) / 2 <= i_ahead - 1)%nat).
    { split.
      - apply Nat.div_le_lower_bound; lia.
      - apply Nat.Div0.div_le_upper_bound; lia. }
    split.
    + constructor; [exact Hs|].
      eapply Forall_impl; [|exact Hb]. intros p Hp. cbv beta in *. lia.
    + constructor; [lia|].
      eapply Forall_impl; [|exact Hb]. intros p Hp. cbv beta in *. lia.
Qed.

Lemma mask_sorted (l : list nat) (keep : list bool) :
  StronglySorted lt l -> StronglySorted lt (mask l keep).
Proof.
  intro H. revert keep. induction H as [|a l Hs IH Ha]; intro keep; simpl.
  - constructor.
  - destruct keep as [|k keep]; [constructor|].
    destruct k; [|apply IH].
    constructor; [apply IH|].
    apply Forall_forall. intros p Hp.
    apply mask_In in Hp. rewrite Forall_forall in Ha. apply Ha. exact Hp.
Qed.

Lemma candidates_sorted (x : list npfloat) (h : Q) :
  StronglySorted lt (candidates x h).
Proof.
  apply mask_sorted.
  apply (local_maxima_loop_sorted x (length x - 1) (length x) 1).
Qed.

Lemma candidates_interior (x : list npfloat) (h : Q) (p : nat) :
  In p (candidates x h) -> (1 <= p < length x - 1)%nat.
Proof.
  intro H. apply mask_In in H.
  destruct (local_maxima_loop_sorted x (length x - 1) (length x) 1) as [_ Hb].
  rewrite Forall_forall in Hb. apply Hb. exact H.
Qed.

(** ** The separation that [_select_by_peak_distance] enforces *)

Lemma clear_nil (k : nat) : clear k [] = [].
Proof. destruct k; reflexivity. Qed.

Lemma nth_clear (k i : nat) (keep : list bool) :
  nth i (clear k keep) false
  = if (i =? k)%nat then false else nth i keep false.
Proof.
  revert i keep. induction k as [|k IH]; intros i keep.
  - destruct keep as [|a l]; destruct i; reflexivity.
  - destruct keep as [|a l].
    + rewrite clear_nil. destruct (i =? S k)%nat; destruct i; reflexivity.
    + change (clear (S k) (a :: l)) with (a :: clear k l).
      destruct i as [|i]; [reflexivity|]. simpl. apply IH.
Qed.

Lemma nth_clear_true (k i : nat) (keep : list bool) :
  nth i (clear k keep) false = true -> nth i keep false = true.
Proof.
  rewrite nth_clear. destruct (i =? k)%nat; [discriminate | auto].
Qed.

Lemma clear_earlier_spec (peaks : list nat) (d pj : Z) :
  forall k keep,
    (forall i, nth i (clear_earlier peaks d pj k keep) false = true ->
               nth i keep false = true)
    /\ (forall i, (k <= i)%nat ->
                  nth i (clear_earlier peaks d pj k keep) false
                  = nth i keep false)
    /\ ((forall a b, (a <= b < k)%nat ->
                     (nth a peaks O <= nth b peaks O)%nat) ->
        forall i, (i < k)%nat ->
                  (pj - Z.of_nat (nth i peaks O) < d)%Z ->
                  nth i (clear_earlier peaks d pj k keep) false = false).
Proof.
  induction k as [|k IH]; intro keep; cbn [clear_earlier].
  - repeat split; auto. intros _ i Hi. lia.
  - destruct (pj - Z.of_nat (nth k peaks O) <? d)%Z eqn:E.
    + destruct (IH (clear k keep)) as [Hmono [Hsame Hcover]].
      split; [|split].
      * intros i Hi. apply (nth_clear_true k). apply Hmono. exact Hi.
      * intros i Hi. rewrite Hsame by lia. rewrite nth_clear.
        destruct (Nat.eqb_spec i k); [lia | reflexivity].
      * intros Hasc i Hi Hclose.
        destruct (Nat.eq_dec i k) as [-> | Hne].
        -- rewrite Hsame by lia. rewrite nth_clear, Nat.eqb_refl. reflexivity.
        -- apply Hcover; [|lia|exact Hclose].
           intros a b Hab. apply Hasc. lia.
    + apply Z.ltb_ge in E. repeat split; auto.
      intros Hasc i Hi Hclose. exfalso.
      assert (nth i peaks O <= nth k peaks O)%nat by (apply Hasc; lia).
      lia.
Qed.

Lemma clear_later_spec (peaks : list nat) (d pj : Z) :
  forall todo k keep,
    (forall i, nth i (clear_later peaks d pj todo k keep) false = true ->
               nth i keep false = true)
    /\ (forall i, (i < k)%nat ->
                  nth i (clear_later peaks d pj todo k keep) false
                  = nth i keep false)
    /\ ((forall a b, (k <= a)%nat -> (a <= b < k + todo)%nat ->
                     (nth a peaks O <= nth b peaks O)%nat) ->
        forall i, (k <= i < k + todo)%nat ->
                  (Z.of_nat (nth i peaks O) - pj < d)%Z ->
                  nth i (clear_later peaks d pj todo k keep) false = false).
Proof.
  induction todo as [|todo IH]; intros k keep; cbn [clear_later].
  - repeat split; auto. intros _ i Hi. lia.
  - destruct (Z.of_nat (nth k peaks O) - pj <? d)%Z eqn:E.
    + destruct (IH (S k) (clear k keep)) as [Hmono [Hsame Hcover]].
      split; [|split].
      * intros i Hi. apply (nth_clear_true k). apply Hmono. exact Hi.
      * intros i Hi. rewrite Hsame by lia. rewrite nth_clear.
        destruct (Nat.eqb_spec i k); [lia | reflexivity].
      * intros Hasc i Hi Hclose.
        destruct (Nat.eq_dec i k) as [-> | Hne].
        -- rewrite Hsame by lia. rewrite nth_clear, Nat.eqb_refl. reflexivity.
        -- apply Hcover; [|lia|exact Hclose].
           intros a b Ha Hab. apply Hasc; lia.
    + apply Z.ltb_ge in E. repeat split; auto.
      intros Hasc i Hi Hclose. exfalso.
      assert (nth k peaks O <= nth i peaks O)%nat by (apply Hasc; lia).
      lia.
Qed.

Lemma sorted_ascending (peaks : list nat) :
  StronglySorted lt peaks -> ascending peaks.
Proof.
  intro H. induction H as [|p peaks Hs IH Hp]; intros a b Hab.
  - simpl in Hab. lia.
  - destruct b as [|b]; [assert (a = 0)%nat by lia; subst; lia|].
    destruct a as [|a].
    + simpl. rewrite Forall_forall in Hp.
      apply Nat.lt_le_incl, Hp, nth_In. simpl in Hab. lia.
    + simpl. apply IH. simpl in Hab. lia.
Qed.

Lemma visit_peak_monotone (peaks : list nat) (d : Z) (keep : list bool)
  (j i : nat) :
  nth i (visit_peak peaks d keep j) false = true -> nth i keep false = true.
Proof.
  unfold visit_peak. destruct (nth j keep false); [|auto].
  intro H.
  apply (proj1 (clear_later_spec _ _ _ _ _ _)) in H.
  apply (proj1 (clear_earlier_spec _ _ _ _ _)) in H. exact H.
Qed.

Lemma visit_peak_clears (peaks : list nat) (d : Z) (keep : list bool)
  (j : nat) :
  ascending peaks -> (j < length peaks)%nat ->
  nth j keep false = true ->
  forall i, (i < length peaks)%nat -> i <> j -> too_close peaks d i j ->
            nth i (visit_peak peaks d keep j) false = false.
Proof.
  intros Hasc Hj Hkept i Hi Hne Hclose. unfold visit_peak. rewrite Hkept.
  unfold too_close in Hclose.
  set (pj := Z.of_nat (nth j peaks O)) in *.
  set (keep1 := clear_earlier peaks d pj j keep).
  destruct (clear_earlier_spec peaks d pj j keep) as [_ [_ Hearly]].
  destruct (clear_later_spec peaks d pj (length peaks - S j) (S j) keep1)
    as [Hmono [_ Hlate]].
  destruct (Nat.lt_ge_cases i j) as [Hlt | Hge].
  - destruct (nth i (clear_later peaks d pj (length peaks - S j) (S j) keep1)
                  false) eqn:E; [|reflexivity].
    apply Hmono in E. unfold keep1 in E. rewrite Hearly in E.
    + discriminate.
    + intros a b Hab. apply Hasc. lia.
    + exact Hlt.
    + lia.
  - apply Hlate.
    + intros a b Ha Hab. apply Hasc. lia.
    + lia.
    + lia.
Qed.

Lemma fold_visit_monotone (peaks : list nat) (d : Z) (order : list nat) :
  forall keep i,
    nth i (fold_left (visit_peak peaks d) order keep) false = true ->
    nth i keep false = true.
Proof.
  induction order as [|j order IH]; intros keep i H; simpl in H.
  - exact H.
  - apply IH in H. eapply visit_peak_monotone. exact H.
Qed.

Lemma fold_visit_separates (peaks : list nat) (d : Z) :
  ascending peaks ->
  forall order keep j,
    In j order -> (j < length peaks)%nat ->
    nth j (fold_left (visit_peak peaks d) order keep) false = true ->
    forall i, (i < length peaks)%nat -> i <> j -> too_close peaks d i j ->
              nth i (fold_left (visit_peak peaks d) order keep) false = false.
Proof.
  intros Hasc. induction order as [|a order IH]; intros keep j Hin Hj Hkept
    i Hi Hne Hclose; simpl in *.
  - contradiction.
  - destruct (in_dec Nat.eq_dec j order) as [Hlater | Hnot].
    + eapply IH; eauto.
    + destruct Hin as [-> | Hin]; [|contradiction].
      destruct (nth i (fold_left (visit_peak peaks d) order
                         (visit_peak peaks d keep j)) false) eqn:E;
        [|reflexivity].
      apply fold_visit_monotone in E.
      apply fold_visit_monotone in Hkept.
      apply visit_peak_monotone in Hkept.
      rewrite (visit_peak_clears peaks d keep j Hasc Hj Hkept i Hi Hne Hclose)
        in E.
      discriminate.
Qed.

(** [argsort] lists every position. *)
Lemma insert_pos_In (priority : list npfloat) (j x : nat) (sorted : list nat) :
  In x (insert_pos priority j sorted) <-> x = j \/ In x sorted.
Proof.
  induction sorted as [|k sorted IH]; simpl.
  - intuition.
  - destruct (np_lt (at_ priority j) (at_ priority k)); simpl.
    + intuition.
    + rewrite IH. intuition.
Qed.

Lemma fold_insert_In (priority : list npfloat) (x : nat) :
  forall l acc,
    In x (fold_left (fun sorted j => insert_pos priority j sorted) l acc)
    <-> In x l \/ In x acc.
Proof.
  induction l as [|j l IH]; intro acc; simpl.
  - intuition.
  - rewrite IH, insert_pos_In. intuition.
Qed.

Lemma argsort_In (priority : list npfloat) (j : nat) :
  In j (argsort priority) <-> (j < length priority)%nat.
Proof.
  unfold argsort. rewrite fold_insert_In, in_seq. simpl. intuition lia.
Qed.

Lemma mask_In_nth {A : Type} (l : list A) (keep : list bool) (a d : A) :
  In a (mask l keep) ->
  exists i, (i < length l)%nat /\ nth i l d = a /\ nth i keep false = true.
Proof.
  revert keep. induction l as [|b l IH]; intros keep H; simpl in H.
  - contradiction.
  - destruct keep as [|k keep]; [contradiction|].
    assert (Hrest : In a (mask l keep) ->
                    exists i, (i < length (b :: l))%nat
                              /\ nth i (b :: l) d = a
                              /\ nth i (k :: keep) false = true).
    { intro Hr. destruct (IH keep Hr) as [i [Hi [Ha Hk]]].
      exists (S i). simpl. repeat split; [lia | exact Ha | exact Hk]. }
    destruct k; [|auto].
    destruct H as [-> | H]; [|auto].
    exists 0%nat. simpl. repeat split. lia.
Qed.

Lemma select_by_peak_distance_separates (peaks : list nat)
  (priority : list npfloat) (distance p q : nat) :
  StronglySorted lt peaks -> length priority = length peaks ->
  In p (mask peaks (_select_by_peak_distance peaks priority distance)) ->
  In q (mask peaks (_select_by_peak_distance peaks priority distance)) ->
  (p < q)%nat -> (distance <= q - p)%nat.
Proof.
  intros Hsorted Hlen Hp Hq Hlt.
  destruct (mask_In_nth _ _ _ O Hp) as [i [Hi [Ep Ki]]].
  destruct (mask_In_nth _ _ _ O Hq) as [j [Hj [Eq Kj]]].
  assert (Hne : i <> j) by (intro; subst; lia).
  destruct (Nat.lt_ge_cases (q - p) distance) as [Hclose | Hfar];
    [|exact Hfar].
  exfalso. unfold _select_by_peak_distance in Ki, Kj.
  assert (Hin : In j (rev (argsort priority))).
  { apply -> in_rev. apply argsort_In. lia. }
  rewrite (fold_visit_separates peaks (Z.of_nat distance)
             (sorted_ascending _ Hsorted) _ _ j Hin Hj Kj i Hi Hne) in Ki.
  - discriminate.
  - unfold too_close. rewrite Ep, Eq. lia.
Qed.

(** ** What [find_peaks] reports *)

(** X1.  Any two bins reported by [find_peaks] are at least [distance] bins
    apart. *)
Theorem find_peaks_separation (x : list npfloat) (height : Q)
  (distance p q : nat) :
  In p (find_peaks x height distance) ->
  In q (find_peaks x height distance) ->
  (p < q)%nat ->
  (distance <= q - p)%nat.
Proof.
  unfold find_peaks. apply select_by_peak_distance_separates.
  - apply candidates_sorted.
  - apply length_map.
Qed.

Lemma find_peaks_separation_witness : (peak_distance <= 21 - 1)%nat.
Proof.
  apply (find_peaks_separation spectrum_two_far 1 peak_distance 1 21).
  - vm_compute. left. reflexivity.
  - vm_compute. right. left. reflexivity.
  - lia.
Defined.

(** X2.  The reported bins come in strictly increasing order and are
    interior: the first and the last bin of a spectrum are never reported,
    so a spectrum of fewer than three bins reports nothing. *)
Theorem find_peaks_interior (x : list npfloat) (height : Q) (distance : nat) :
  StronglySorted lt (find_peaks x height distance)
  /\ Forall (fun p => (1 <= p /\ p + 1 < length x)%nat)
            (find_peaks x height distance)
  /\ ((length x < 3)%nat -> find_peaks x height distance = []).
Proof.
  assert (Hin : Forall (fun p => (1 <= p /\ p + 1 < length x)%nat)
                       (find_peaks x height distance)).
  { apply Forall_forall. intros p Hp.
    apply find_peaks_candidates, candidates_interior in Hp. lia. }
  split; [apply mask_sorted, candidates_sorted|].
  split; [exact Hin|].
  intro Hshort. destruct (find_peaks x height distance) as [|p l];
    [reflexivity|].
  inversion Hin as [|? ? Hp _]. lia.
Qed.

(** ** What a detection record holds *)

Lemma index_all_map {A : Type} (a : list A) (peaks : list nat) (vs : list A)
  (d : A) :
  index_all a peaks = Ok vs ->
  vs = map (fun p => nth p a d) peaks
  /\ Forall (fun p => (p < length a)%nat) peaks.
Proof.
  revert vs. induction peaks as [|p peaks IH]; intros vs H; simpl in H.
  - injection H as <-. split; constructor.
  - destruct (nth_error a p) as [v|] eqn:E; [|discriminate].
    destruct (index_all a peaks) as [vs'|e]; cbn [bind] in H; [|discriminate].
    injection H as <-. destruct (IH vs' eq_refl) as [-> Hb].
    split.
    + simpl. f_equal. symmetry. apply nth_error_nth. exact E.
    + constructor; [|exact Hb]. apply nth_error_Some. congruence.
Qed.

Lemma index_all_in_range {A : Type} (a : list A) (peaks : list nat) :
  Forall (fun p => (p < length a)%nat) peaks ->
  exists vs, index_all a peaks = Ok vs.
Proof.
  induction 1 as [|p peaks Hp _ [vs IH]]; simpl.
  - eexists. reflexivity.
  - destruct (nth_error a p) as [v|] eqn:E.
    + rewrite IH. eexists. reflexivity.
    + apply nth_error_None in E. lia.
Qed.

Lemma index_all_raise {A : Type} (a : list A) (peaks : list nat) (e : exn) :
  index_all a peaks = Raise e ->
  e = IndexError /\ exists p, In p peaks /\ (length a <= p)%nat.
Proof.
  induction peaks as [|p peaks IH]; simpl; intro H; [discriminate|].
  destruct (nth_error a p) eqn:En.
  - destruct (index_all a peaks) as [vs|e']; cbn [bind] in H; [discriminate|].
    injection H as <-. destruct (IH eq_refl) as [-> [q [Hq Hlen]]].
    split; [reflexivity|]. exists q. split; [right; exact Hq | exact Hlen].
  - injection H as <-. split; [reflexivity|].
    exists p. split; [left; reflexivity|]. apply nth_error_None. exact En.
Qed.

Lemma find_peaks_in_range (x : list npfloat) (height : Q) (distance : nat) :
  Forall (fun p => (p < length x)%nat) (find_peaks x height distance).
Proof.
  apply Forall_forall. intros p Hp.
  apply find_peaks_candidates, candidates_interior in Hp. lia.
Qed.

Lemma detection_powers_above (cfg : Config) (now : nat) (fr : FftResult)
  (store store' : list Detection) (d : Detection) :
  _analyze_signal cfg now fr store = Ok (Some d, store') ->
  det_powers d <> []
  /\ Forall (fun v => fle (Fin (threshold_power cfg)) v = true)
            (det_powers d).
Proof.
  intro H.
  destruct (analyze_signal_detection _ _ _ _ _ _ H)
    as [_ [Hps [Hne _]]].
  split; [exact Hne|].
  destruct (index_all_map _ _ _ NaN Hps) as [-> _].
  apply Forall_forall. intros v Hv. apply in_map_iff in Hv.
  destruct Hv as [p [<- Hp]].
  apply (candidates_height (power fr)).
  eapply find_peaks_candidates. exact Hp.
Qed.

Lemma analyze_signal_ok_of_lengths (cfg : Config) (now : nat)
  (fr : FftResult) (store : list Detection) :
  (length (power fr) <= length (frequencies fr))%nat ->
  exists r, _analyze_signal cfg now fr store = Ok r.
Proof.
  intro Hlen.
  set (peaks := find_peaks (power fr) (threshold_power cfg) peak_distance).
  pose proof (find_peaks_in_range (power fr) (threshold_power cfg)
                peak_distance) as Hpow.
  fold peaks in Hpow.
  destruct (index_all_in_range (power fr) peaks Hpow) as [ps Eps].
  assert (Hfreq : Forall (fun p => (p < length (frequencies fr))%nat) peaks).
  { eapply Forall_impl; [|exact Hpow]. intros p Hp. cbv beta in Hp. lia. }
  destruct (index_all_in_range (frequencies fr) peaks Hfreq) as [fs Efs].
  unfold _analyze_signal. fold peaks.
  destruct (0 <? length peaks)%nat; [|eexists; reflexivity].
  rewrite Efs, Eps. cbn [bind]. eexists. reflexivity.
Qed.

(** X3.  A detection record pairs every reported peak with one frequency
    and one power: the two lists have the same, non-zero length, every
    recorded power is at or above the threshold, the time stamp is the
    clock reading of the pass, and the record is appended at the end of the
    store. *)
Theorem detection_record_shape (cfg : Config) (now : nat) (fr : FftResult)
  (store store' : list Detection) (d : Detection) :
  _analyze_signal cfg now fr store = Ok (Some d, store') ->
  length (det_frequencies d) = length (det_powers d)
  /\ (0 < length (det_powers d))%nat
  /\ Forall (fun v => fle (Fin (threshold_power cfg)) v = true) (det_powers d)
  /\ timestamp d = now
  /\ store' = store ++ [d].
Proof.
  intro H. pose proof H as H0.
  destruct (analyze_signal_detection _ _ _ _ _ _ H)
    as [_ [Hps [Hne [Hnow [_ Hstore]]]]].
  split; [|split; [|split; [|split; [exact Hnow | exact Hstore]]]].
  - unfold _analyze_signal in H.
    destruct (0 <? _)%nat; [|discriminate].
    destruct (index_all (frequencies fr) _) as [fs|e] eqn:Ef;
      cbn [bind] in H; [|discriminate].
    destruct (index_all (power fr) _) as [ps|e] eqn:Ep;
      cbn [bind] in H; [|discriminate].
    injection H as <- _. simpl.
    rewrite (index_all_length _ _ _ Ef), (index_all_length _ _ _ Ep).
    reflexivity.
  - destruct (det_powers d); [congruence | simpl; lia].
  - apply (detection_powers_above cfg now fr store store' d). exact H0.
Qed.

Lemma detection_record_shape_witness :
  length (det_frequencies detection_one_peak)
  = length (det_powers detection_one_peak)
  /\ (0 < length (det_powers detection_one_peak))%nat
  /\ Forall (fun v => fle (Fin (threshold_power cfg4)) v = true)
            (det_powers detection_one_peak)
  /\ timestamp detection_one_peak = 0%nat
  /\ [detection_one_peak] = [] ++ [detection_one_peak].
Proof.
  apply (detection_record_shape cfg4 0 fft_one_peak [] [detection_one_peak]
           detection_one_peak).
  vm_compute. reflexivity.
Defined.

(** X4.  When the frequency axis is at least as long as the power array,
    [_analyze_signal] does not raise; when it does raise, the exception is
    an [IndexError] and some reported bin lies beyond the frequency axis. *)
Theorem analyze_signal_raises_only_on_short_axis (cfg : Config) (now : nat)
  (fr : FftResult) (store : list Detection) :
  ((length (power fr) <= length (frequencies fr))%nat ->
   exists r, _analyze_signal cfg now fr store = Ok r)
  /\ (forall e, _analyze_signal cfg now fr store = Raise e ->
                e = IndexError
                /\ exists p,
                     In p (find_peaks (power fr) (threshold_power cfg)
                                      peak_distance)
                     /\ (length (frequencies fr) <= p)%nat).
Proof.
  split.
  - apply analyze_signal_ok_of_lengths.
  - intros e H. unfold _analyze_signal in H.
    set (peaks := find_peaks (power fr) (threshold_power cfg) peak_distance)
      in *.
    destruct (0 <? length peaks)%nat; [|discriminate].
    destruct (index_all (frequencies fr) peaks) as [fs|e'] eqn:Efs.
    + destruct (index_all_in_range (power fr) peaks
                  (find_peaks_in_range _ _ _)) as [ps Eps].
      rewrite Eps in H. discriminate.
    + cbn [bind] in H. injection H as <-.
      apply index_all_raise. exact Efs.
Qed.

Lemma analyze_signal_raises_only_on_short_axis_witness :
  exists r, _analyze_signal cfg4 0 fft_one_peak [] = Ok r.
Proof.
  apply (proj1 (analyze_signal_raises_only_on_short_axis cfg4 0 fft_one_peak
                  [])).
  simpl. lia.
Defined.

(** * Further properties of the spectral transform *)

Lemma length_fftshift {A : Type} (x : list A) :
  length (fftshift x) = length x.
Proof.
  unfold fftshift. rewrite length_app, length_skipn, length_firstn.
  pose proof (Nat.Div0.div_le_upper_bound (length x) 2 (length x)).
  lia.
Qed.

Lemma length_fftfreq_bins (n : nat) :
  (1 <= n)%nat -> length (fftfreq_bins n) = n.
Proof.
  intro H. unfold fftfreq_bins.
  rewrite length_app, !length_map, !length_seq.
  pose proof (Nat.div_mod_eq n 2) as E1.
  pose proof (Nat.div_mod_eq (n - 1) 2) as E2.
  pose proof (Nat.mod_upper_bound n 2) as B1.
  pose proof (Nat.mod_upper_bound (n - 1) 2) as B2.
  lia.
Qed.

Lemma length_fftfreq (n : nat) (d : Q) :
  (1 <= n)%nat -> length (fftfreq n d) = n.
Proof.
  intro H. unfold fftfreq. rewrite length_map. apply length_fftfreq_bins, H.
Qed.

(** [fftshift] moves entry [(i + ceil(n/2)) mod n] to index [i]. *)
Lemma nth_error_fftshift {A : Type} (x : list A) (i : nat) :
  (i < length x)%nat ->
  nth_error (fftshift x) i
  = nth_error x ((i + (length x - length x / 2)) mod length x).
Proof.
  intro Hi. unfold fftshift.
  set (n := length x) in *. set (k := (n / 2)%nat).
  assert (Hk : (k <= n)%nat)
    by (apply Nat.Div0.div_le_upper_bound; lia).
  destruct (Nat.lt_ge_cases i k) as [Hlt | Hge].
  - rewrite nth_error_app1 by (rewrite length_skipn; fold n; lia).
    rewrite nth_error_skipn. rewrite Nat.mod_small by lia.
    f_equal. lia.
  - rewrite nth_error_app2 by (rewrite length_skipn; fold n; lia).
    rewrite length_skipn. fold n.
    rewrite nth_error_firstn.
    assert (E : ((i + (n - k)) mod n = i - k)%nat).
    { replace (i + (n - k))%nat with ((i - k) + 1 * n)%nat by lia.
      rewrite Nat.Div0.mod_add. apply Nat.mod_small. lia. }
    rewrite E. replace (n - (n - k))%nat with k by lia.
    destruct (i - k <? n - k)%nat eqn:F; [reflexivity|].
    apply Nat.ltb_ge in F. lia.
Qed.

(** The unshifted axis: index [i] carries bin [i] up to the middle and bin
    [i - n] beyond it. *)
Lemma nth_fftfreq_bins (n i : nat) :
  (i < n)%nat ->
  nth i (fftfreq_bins n) 0%Z
  = if (i <? (n - 1) / 2 + 1)%nat then Z.of_nat i
    else (Z.of_nat i - Z.of_nat n)%Z.
Proof.
  intro Hi. unfold fftfreq_bins.
  pose proof (Nat.div_mod_eq n 2) as E1.
  pose proof (Nat.div_mod_eq (n - 1) 2) as E2.
  pose proof (Nat.mod_upper_bound n 2) as B1.
  pose proof (Nat.mod_upper_bound (n - 1) 2) as B2.
  destruct (i <? (n - 1) / 2 + 1)%nat eqn:F.
  - apply Nat.ltb_lt in F.
    rewrite app_nth1 by (rewrite length_map, length_seq; exact F).
    rewrite (nth_indep _ 0%Z (Z.of_nat 0))
      by (rewrite length_map, length_seq; exact F).
    rewrite map_nth, seq_nth by exact F. reflexivity.
  - apply Nat.ltb_ge in F.
    rewrite app_nth2 by (rewrite length_map, length_seq; exact F).
    rewrite length_map, length_seq.
    set (j := (i - ((n - 1) / 2 + 1))%nat).
    assert (Hj : (j < n / 2)%nat) by (unfold j; lia).
    rewrite (nth_indep _ 0%Z
               ((fun k => (Z.of_nat k - Z.of_nat (n / 2))%Z) O))
      by (rewrite length_map, length_seq; exact Hj).
    rewrite (map_nth (fun k => (Z.of_nat k - Z.of_nat (n / 2))%Z)).
    rewrite seq_nth by exact Hj. unfold j. lia.
Qed.

Section TransformFurther.

Variable K : Numerics.

Lemma length_zip_window (samples : list (complex K)) (window : list Q) :
  length samples = length window ->
  length (zip_window K samples window) = length samples.
Proof.
  revert window. induction samples as [|s samples IH]; intros window H.
  - reflexivity.
  - destruct window as [|w window]; [discriminate H|].
    simpl. f_equal. apply IH. simpl in H. lia.
Qed.

Lemma apply_window_empty (samples : list (complex K)) (window : list Q)
  (w : list (complex K)) :
  apply_window K samples window = Ok w ->
  (length samples = length window \/ length window = 1%nat
   \/ length samples = 1%nat)
  /\ (w = [] <-> samples = [] \/ window = []).
Proof.
  unfold apply_window.
  destruct (length samples =? length window)%nat eqn:E.
  - apply Nat.eqb_eq in E. intro H. injection H as <-.
    split; [left; exact E|].
    destruct samples as [|s samples]; destruct window as [|c window];
      try discriminate E; simpl; intuition congruence.
  - destruct samples as [|s [|s' samples]];
      destruct window as [|c [|c' window]]; simpl in *;
      try discriminate; intro H; injection H as <-;
      (split; [lia | intuition congruence]).
Qed.

Lemma apply_window_broadcast (samples : list (complex K)) (window : list Q) :
  (length samples = length window \/ length window = 1%nat
   \/ length samples = 1%nat) ->
  exists w, apply_window K samples window = Ok w.
Proof.
  intro H. unfold apply_window.
  destruct (length samples =? length window)%nat eqn:E;
    [eexists; reflexivity|].
  apply Nat.eqb_neq in E.
  destruct samples as [|s [|s' samples]];
    destruct window as [|c [|c' window]]; simpl in *;
    try (eexists; reflexivity); lia.
Qed.

Lemma compute_fft_nonempty (cfg : Config) (window : list Q)
  (samples : list (complex K)) (fr : FftResult) :
  _compute_fft K cfg window samples = Ok fr -> samples <> [].
Proof.
  unfold _compute_fft. intro H.
  destruct (apply_window K samples window) as [w|e] eqn:Ew;
    cbn [bind] in H; [|discriminate].
  destruct (apply_window_empty _ _ _ Ew) as [_ Hempty].
  destruct w as [|c w]; cbn [bind] in H; [discriminate|].
  intro E. assert (c :: w = []) by (apply Hempty; auto). discriminate.
Qed.

(** X5.  [_compute_fft] returns exactly when the block and the window
    broadcast (equal lengths, or one of them of length one), neither is
    empty, and the sample rate is not zero; otherwise it raises. *)
Theorem compute_fft_returns_iff (cfg : Config) (window : list Q)
  (samples : list (complex K)) :
  (exists fr, _compute_fft K cfg window samples = Ok fr)
  <-> ((length samples = length window \/ length window = 1%nat
        \/ length samples = 1%nat)
       /\ samples <> [] /\ window <> [] /\ ~ sample_rate cfg == 0).
Proof.
  unfold _compute_fft. split.
  - intros [fr H].
    destruct (apply_window K samples window) as [w|e] eqn:Ew;
      cbn [bind] in H; [|discriminate].
    destruct (apply_window_empty _ _ _ Ew) as [Hb Hempty].
    destruct w as [|c w]; cbn [bind] in H; [discriminate|].
    destruct (Qeq_bool (sample_rate cfg) 0) eqn:Er; cbn [bind] in H;
      [discriminate|].
    split; [exact Hb|].
    split; [intro E; assert (c :: w = []) by (apply Hempty; auto);
            discriminate|].
    split; [intro E; assert (c :: w = []) by (apply Hempty; auto);
            discriminate|].
    intro E. apply Qeq_bool_iff in E. congruence.
  - intros [Hb [Hs [Hw Hr]]].
    destruct (apply_window_broadcast _ _ Hb) as [w Ew]. rewrite Ew.
    cbn [bind].
    destruct (apply_window_empty _ _ _ Ew) as [_ Hempty].
    destruct w as [|c w].
    + destruct (proj1 Hempty eq_refl); contradiction.
    + cbn [bind].
      destruct (Qeq_bool (sample_rate cfg) 0) eqn:Er.
      * apply Qeq_bool_iff in Er. contradiction.
      * cbn [bind]. eexists. reflexivity.
Qed.

(** X6.  For a block as long as the window and a transform that keeps the
    length of its input, the two arrays of the result are parallel, each
    with one entry per sample, and the analysis of such a result does not
    raise. *)
Theorem compute_fft_parallel_arrays (cfg : Config) (window : list Q)
  (samples : list (complex K)) (fr : FftResult) (now : nat)
  (store : list Detection) :
  _compute_fft K cfg window samples = Ok fr ->
  length samples = length window ->
  length (np_fft K (zip_window K samples window)) = length samples ->
  length (power fr) = length samples
  /\ length (frequencies fr) = length samples
  /\ exists r, _analyze_signal cfg now fr store = Ok r.
Proof.
  intros H Hlen Hfft.
  pose proof (compute_fft_nonempty _ _ _ _ H) as Hne.
  destruct (compute_fft_result K _ _ _ _ H) as [w [Ew [Hp Hf]]].
  rewrite (apply_window_same_length K _ _ Hlen) in Ew. injection Ew as <-.
  assert (Lp : length (power fr) = length samples)
    by (rewrite Hp, length_map, length_fftshift; exact Hfft).
  assert (Lf : length (frequencies fr) = length samples).
  { rewrite Hf. apply length_fftfreq.
    destruct samples; [congruence | simpl; lia]. }
  split; [exact Lp|]. split; [exact Lf|].
  apply analyze_signal_ok_of_lengths. lia.
Qed.

(** X7.  Which bin an index stands for.  In the result of [_compute_fft]
    for a block of window length [n], entry [i] of the power array is the
    power of transform bin [(i + ceil(n/2)) mod n], while entry [i] of the
    frequency axis is the frequency of bin [i] ([i - n] past the middle),
    in units of [1 / (n * (1 / sample_rate))]. *)
Theorem compute_fft_index_law (cfg : Config) (window : list Q)
  (samples : list (complex K)) (fr : FftResult) (i : nat) :
  _compute_fft K cfg window samples = Ok fr ->
  length samples = length window ->
  length (np_fft K (zip_window K samples window)) = length samples ->
  (i < length samples)%nat ->
  nth_error (power fr) i
  = option_map (power_db K)
      (nth_error (np_fft K (zip_window K samples window))
         ((i + (length samples - length samples / 2)) mod length samples))
  /\ nth_error (frequencies fr) i
     = Some (inject_Z (if (i <? (length samples - 1) / 2 + 1)%nat
                       then Z.of_nat i
                       else Z.of_nat i - Z.of_nat (length samples))
             * (1 / (inject_Z (Z.of_nat (length samples))
                     * (1 / sample_rate cfg)))).
Proof.
  intros H Hlen Hfft Hi.
  destruct (compute_fft_result K _ _ _ _ H) as [w [Ew [Hp Hf]]].
  rewrite (apply_window_same_length K _ _ Hlen) in Ew. injection Ew as <-.
  split.
  - rewrite Hp, nth_error_map.
    rewrite nth_error_fftshift by (rewrite Hfft; exact Hi).
    rewrite Hfft. reflexivity.
  - rewrite Hf. unfold fftfreq. rewrite nth_error_map.
    rewrite (nth_error_nth' _ 0%Z)
      by (rewrite length_fftfreq_bins; lia).
    rewrite nth_fftfreq_bins by exact Hi. reflexivity.
Qed.

End TransformFurther.

Lemma compute_fft_parallel_arrays_witness :
  length (power fft_dc) = length dc_block
  /\ length (frequencies fft_dc) = length dc_block
  /\ exists r, _analyze_signal cfg4 7 fft_dc [] = Ok r.
Proof.
  apply (compute_fft_parallel_arrays Gaussian.numerics cfg4 boxcar4 dc_block
           fft_dc 7 []).
  - vm_compute. reflexivity.
  - reflexivity.
  - reflexivity.
Defined.

Lemma compute_fft_index_law_witness :
  nth_error (power fft_dc) 2
  = option_map (power_db Gaussian.numerics)
      (nth_error (np_fft Gaussian.numerics
                    (zip_window Gaussian.numerics dc_block boxcar4))
         ((2 + (length dc_block - length dc_block / 2)) mod length dc_block))
  /\ nth_error (frequencies fft_dc) 2
     = Some (inject_Z (if (2 <? (length dc_block - 1) / 2 + 1)%nat
                       then Z.of_nat 2
                       else Z.of_nat 2 - Z.of_nat (length dc_block))
             * (1 / (inject_Z (Z.of_nat (length dc_block))
                     * (1 / sample_rate cfg4)))).
Proof.
  apply (compute_fft_index_law Gaussian.numerics cfg4 boxcar4 dc_block
           fft_dc 2).
  - vm_compute. reflexivity.
  - reflexivity.
  - reflexivity.
  - simpl. lia.
Defined.

(** * Further properties of the monitor loop *)

Lemma analyze_signal_store (cfg : Config) (now : nat) (fr : FftResult)
  (store store' : list Detection) (o : option Detection) :
  _analyze_signal cfg now fr store = Ok (o, store') ->
  store' = store ++ match o with Some d => [d] | None => [] end.
Proof.
  destruct o as [d|]; intro H.
  - apply analyze_signal_detection in H. tauto.
  - unfold _analyze_signal in H.
    destruct (0 <? _)%nat.
    + destruct (index_all (frequencies fr) _); cbn [bind] in H;
        [|discriminate].
      destruct (index_all (power fr) _); cbn [bind] in H; discriminate.
    + injection H as <-. symmetry. apply app_nil_r.
Qed.

Section MonitorFurther.

Variable K : Numerics.

(** The records a pass adds to the store are the ones it hands to the
    sink, and the pass touches neither the callback nor the device. *)
Lemma loop_pass_effect (t : tick K) (st : SignalProcessor) :
  exists new,
    detected_signals (loop_pass K t st) = detected_signals st ++ new
    /\ sink_calls (loop_pass K t st)
       = sink_calls st ++ match callback st with
                          | Some _ => new
                          | None => []
                          end
    /\ (length new <= 1)%nat
    /\ callback (loop_pass K t st) = callback st
    /\ sdr (loop_pass K t st) = sdr st.
Proof.
  unfold loop_pass, try_body.
  assert (Hnone : forall st0 : SignalProcessor,
             exists new : list Detection,
               detected_signals st0 = detected_signals st0 ++ new
               /\ sink_calls st0
                  = sink_calls st0 ++ match callback st0 with
                                      | Some _ => new
                                      | None => []
                                      end
               /\ (length new <= 1)%nat).
  { intro st0. exists []. rewrite !app_nil_r.
    destruct (callback st0); simpl; rewrite ?app_nil_r; auto. }
  destruct (read t) as [samples|e].
  2:{ destruct (Hnone st) as [new [H1 [H2 H3]]]. exists new. cbn. auto. }
  destruct (_compute_fft K (config st) (window st) samples) as [fr|e].
  2:{ destruct (Hnone st) as [new [H1 [H2 H3]]]. exists new. cbn. auto. }
  destruct (_analyze_signal (config st) (now t) fr (detected_signals st))
    as [[o store]|e] eqn:Ea.
  2:{ destruct (Hnone st) as [new [H1 [H2 H3]]]. exists new. cbn. auto. }
  apply analyze_signal_store in Ea. subst store.
  destruct o as [d|].
  - exists [d]. cbn [callback set_detected].
    destruct (callback st) as [cb|] eqn:Ecb.
    + destruct (cb d); cbn; rewrite Ecb; auto.
    + cbn. rewrite Ecb, app_nil_r. auto.
  - exists []. cbn. rewrite !app_nil_r.
    destruct (callback st); cbn; rewrite ?app_nil_r; auto.
Qed.

(** X8.  Over any run of the loop the detection store only grows, by at
    most one record per block supplied, and the sink is handed exactly the
    records stored during the run, in the order they were stored (none when
    no callback is registered). *)
Theorem loop_store_and_sink_agree (ticks : list (tick K))
  (st : SignalProcessor) :
  exists new,
    detected_signals (fst (_processing_loop K ticks st))
    = detected_signals st ++ new
    /\ sink_calls (fst (_processing_loop K ticks st))
       = sink_calls st ++ match callback st with
                          | Some _ => new
                          | None => []
                          end
    /\ (length new <= length ticks)%nat.
Proof.
  revert st. induction ticks as [|t ticks IH]; intro st.
  - exists []. rewrite !app_nil_r. cbn.
    destruct (running st); [destruct (sdr st)|]; cbn;
      destruct (callback st); rewrite ?app_nil_r; auto.
  - cbn [_processing_loop].
    destruct (running st).
    + destruct (sdr st) eqn:Esdr.
      * destruct (loop_pass_effect t st) as [new1 [D1 [S1 [L1 [C1 _]]]]].
        destruct (IH (loop_pass K t st)) as [new2 [D2 [S2 L2]]].
        exists (new1 ++ new2).
        rewrite D2, D1, S2, S1, C1, <- !app_assoc.
        split; [reflexivity|]. split.
        -- destruct (callback st); cbn [app]; reflexivity.
        -- rewrite length_app. simpl. lia.
      * exists []. cbn. rewrite !app_nil_r.
        destruct (callback st); rewrite ?app_nil_r;
          (split; [reflexivity|]); (split; [reflexivity | lia]).
    + exists []. cbn. rewrite !app_nil_r.
      destruct (callback st); rewrite ?app_nil_r;
        (split; [reflexivity|]); (split; [reflexivity | lia]).
Qed.

(** X9.  A failed read ends the loop at once: the error is logged,
    [running] is cleared, the store and the sink are left as they were, and
    the blocks still to come are never pulled. *)
Theorem read_failure_ends_loop (t : tick K) (ticks : list (tick K))
  (st : SignalProcessor) (dev : RtlSdr) (e : exn) :
  running st = true ->
  sdr st = Some dev ->
  read t = Raise e ->
  _processing_loop K (t :: ticks) st
  = (set_thread (Some Finished) (on_exception e st), ticks)
  /\ detected_signals (fst (_processing_loop K (t :: ticks) st))
     = detected_signals st
  /\ sink_calls (fst (_processing_loop K (t :: ticks) st)) = sink_calls st
  /\ log (fst (_processing_loop K (t :: ticks) st)) = log st ++ [LogError e]
  /\ running (fst (_processing_loop K (t :: ticks) st)) = false.
Proof.
  intros Hrun Hsdr Hread.
  assert (E : _processing_loop K (t :: ticks) st
              = (set_thread (Some Finished) (on_exception e st), ticks)).
  { cbn [_processing_loop]. rewrite Hrun, Hsdr.
    unfold loop_pass, try_body. rewrite Hread.
    destruct ticks; reflexivity. }
  rewrite E. repeat split; reflexivity.
Qed.

(** X10.  However the loop returns, either it has ended, with [running]
    clear and the thread finished, or it is still running, has consumed
    every block supplied and holds a device.  The blocks left over are a
    tail of those supplied. *)
Theorem loop_exit_state (ticks : list (tick K)) (st : SignalProcessor) :
  ((running (fst (_processing_loop K ticks st)) = false
    /\ processing_thread (fst (_processing_loop K ticks st)) = Some Finished)
   \/ (running (fst (_processing_loop K ticks st)) = true
       /\ snd (_processing_loop K ticks st) = []
       /\ sdr (fst (_processing_loop K ticks st)) <> None))
  /\ exists used, ticks = used ++ snd (_processing_loop K ticks st).
Proof.
  revert st. induction ticks as [|t ticks IH]; intro st;
    cbn [_processing_loop].
  - destruct (running st) eqn:Er; [destruct (sdr st) eqn:Es|]; cbn.
    + split; [right; rewrite Er, Es; repeat split; discriminate|].
      exists []. reflexivity.
    + split; [left; auto | exists []; reflexivity].
    + split; [left; auto | exists []; reflexivity].
  - destruct (running st) eqn:Er; [destruct (sdr st) eqn:Es|]; cbn.
    + destruct (IH (loop_pass K t st)) as [H [used Hu]].
      split; [exact H|]. exists (t :: used). simpl. f_equal. exact Hu.
    + split; [left; auto | exists []; reflexivity].
    + split; [left; auto | exists []; reflexivity].
Qed.




End MonitorFurther.

Lemma read_failure_ends_loop_witness :
  _processing_loop Gaussian.numerics
    (Build_tick Gaussian.numerics (Raise SourceReadError) 3 :: [tick_dc])
    engine_failing_sink
  = (set_thread (Some Finished)
       (on_exception SourceReadError engine_failing_sink), [tick_dc])
  /\ detected_signals
       (fst (_processing_loop Gaussian.numerics
               (Build_tick Gaussian.numerics (Raise SourceReadError) 3
                :: [tick_dc]) engine_failing_sink))
     = detected_signals engine_failing_sink
  /\ sink_calls
       (fst (_processing_loop Gaussian.numerics
               (Build_tick Gaussian.numerics (Raise SourceReadError) 3
                :: [tick_dc]) engine_failing_sink))
     = sink_calls engine_failing_sink
  /\ log (fst (_processing_loop Gaussian.numerics
                 (Build_tick Gaussian.numerics (Raise SourceReadError) 3
                  :: [tick_dc]) engine_failing_sink))
     = log engine_failing_sink ++ [LogError SourceReadError]
  /\ running
       (fst (_processing_loop Gaussian.numerics
               (Build_tick Gaussian.numerics (Raise SourceReadError) 3
                :: [tick_dc]) engine_failing_sink))
     = false.
Proof.
  apply (read_failure_ends_loop Gaussian.numerics
           (Build_tick Gaussian.numerics (Raise SourceReadError) 3)
           [tick_dc] engine_failing_sink device4 SourceReadError);
    reflexivity.
Defined.


(** * Properties of the device set-up *)

(** X13.  [initialize_sdr] never raises.  It returns [True] exactly when
    the device opens and accepts both settings, and then the engine holds
    the device with the configured sample rate and gain.  When the open
    itself fails the handle held before is kept; when the device opens but
    refuses a setting, [False] is returned with the new device still held.
    The running flag and the detection store are not touched. *)
Theorem initialize_sdr_outcome (w : driver) (st : SignalProcessor) :
  exists st' b,
    initialize_sdr w st = (st', Ok b)
    /\ (b = true <->
        exists dev, open_device w = Ok dev
                    /\ accept_sample_rate w = Ok tt
                    /\ accept_gain w = Ok tt)
    /\ (b = true ->
        exists dev, open_device w = Ok dev
                    /\ sdr st'
                       = Some {| dev_sample_rate := sample_rate (config st);
                                 dev_gain := gain (config st);
                                 center_freq := center_freq dev |})
    /\ (forall e, open_device w = Raise e -> sdr st' = sdr st)
    /\ (forall dev, open_device w = Ok dev -> b = false -> sdr st' <> None)
    /\ running st' = running st
    /\ detected_signals st' = detected_signals st.
Proof.
  unfold initialize_sdr, error_handler, initialize_sdr_body.
  destruct (open_device w) as [dev|e].
  - destruct (accept_sample_rate w) as [[]|e1].
    + destruct (accept_gain w) as [[]|e2]; cbn.
      * eexists. exists true. split; [reflexivity|].
        repeat split; try discriminate; eauto.
      * eexists. exists false. split; [reflexivity|].
        repeat split; try discriminate.
        intros [d [_ [_ H]]]. discriminate.
    + cbn. eexists. exists false. split; [reflexivity|].
      repeat split; try discriminate.
      intros [d [_ [H _]]]. discriminate.
  - cbn. eexists. exists false. split; [reflexivity|].
    repeat split; try discriminate.
    intros [d [H _]]. discriminate.
Qed.

(** X14.  [set_frequency] with no device returns [None] and changes
    nothing, not even the log.  After a successful [initialize_sdr], an
    accepted frequency leaves the engine holding a device with the
    configured rate and gain, tuned to that frequency. *)
Theorem set_frequency_needs_device (w : driver) (freq : Q)
  (st : SignalProcessor) :
  (sdr st = None -> set_frequency w freq st = (st, None))
  /\ (forall st1 dev,
        initialize_sdr w st = (st1, Ok true) ->
        open_device w = Ok dev ->
        accept_center_freq w = Ok tt ->
        snd (set_frequency w freq st1) = Some true
        /\ sdr (fst (set_frequency w freq st1))
           = Some {| dev_sample_rate := sample_rate (config st);
                     dev_gain := gain (config st);
                     center_freq := Some freq |}).
Proof.
  split.
  - intro H. unfold set_frequency. rewrite H. reflexivity.
  - intros st1 dev Hinit Hopen Hacc.
    unfold initialize_sdr, error_handler, initialize_sdr_body in Hinit.
    rewrite Hopen in Hinit.
    destruct (accept_sample_rate w) as [[]|e1]; [|discriminate].
    destruct (accept_gain w) as [[]|e2]; [|discriminate].
    injection Hinit as <-. unfold set_frequency. cbn. rewrite Hacc. cbn.
    split; reflexivity.
Qed.

Lemma set_frequency_needs_device_witness :
  set_frequency driver_ok 100000000 (init cfg4 boxcar4)
  = (init cfg4 boxcar4, None).
Proof.
  apply (proj1 (set_frequency_needs_device driver_ok 100000000
                  (init cfg4 boxcar4))).
  reflexivity.
Defined.

(** * Properties of the helpers *)

Lemma Forall2_map_pointwise {A : Type} (f g : A -> Q) (l : list A) :
  (forall a, f a == g a) -> Forall2 Qeq (map f l) (map g l).
Proof.
  intro H. induction l as [|a l IH]; simpl; constructor; auto.
Qed.

Lemma inject_nat_nonzero (n : nat) :
  n <> O -> ~ inject_Z (Z.of_nat n) == 0.
Proof.
  intros Hn E. apply Hn.
  unfold Qeq in E. simpl in E. lia.
Qed.

(** X15.  [calculate_fft_params] returns exactly when neither the block
    size nor the sample rate is zero, and raises [ZeroDivisionError]
    otherwise.  When it returns, the two resolutions are reciprocal, and
    every entry of the frequency axis that [_compute_fft] builds for a
    block of the configured size is its bin number times the frequency
    resolution. *)
Theorem fft_params_resolution (cfg : Config) :
  ((exists p, calculate_fft_params cfg = Ok p)
   <-> (sample_size cfg <> O /\ ~ sample_rate cfg == 0))
  /\ (forall e, calculate_fft_params cfg = Raise e -> e = ZeroDivisionError)
  /\ (forall p, calculate_fft_params cfg = Ok p ->
        freq_resolution p * time_resolution p == 1
        /\ Forall2 Qeq
             (fftfreq (sample_size cfg) (1 / sample_rate cfg))
             (map (fun k => inject_Z k * freq_resolution p)
                  (fftfreq_bins (sample_size cfg)))).
Proof.
  unfold calculate_fft_params.
  destruct (Nat.eqb_spec (sample_size cfg) 0) as [Hz | Hnz].
  - split; [|split]; [|intros e H; congruence | intros p H; discriminate].
    split; [intros [p H]; discriminate | intros [H _]; contradiction].
  - destruct (Qeq_bool (sample_rate cfg) 0) eqn:Er.
    + apply Qeq_bool_iff in Er.
      split; [|split]; [|intros e H; congruence | intros p H; discriminate].
      split; [intros [p H]; discriminate | intros [_ H]; contradiction].
    + assert (Hr : ~ sample_rate cfg == 0).
      { intro E. apply Qeq_bool_iff in E. congruence. }
      pose proof (inject_nat_nonzero _ Hnz) as Hn.
      split; [|split]; [|intros e H; discriminate|].
      * split; [intros _; split; assumption | intros _; eexists; reflexivity].
      * intros p H. injection H as <-. cbn. split.
        -- field. split; assumption.
        -- unfold fftfreq. apply Forall2_map_pointwise.
           intro k. field. split; assumption.
Qed.

Lemma fft_params_resolution_witness :
  exists p, calculate_fft_params cfg4 = Ok p.
Proof.
  apply (proj2 (proj1 (fft_params_resolution cfg4))).
  split; [discriminate | simpl; intro H; discriminate H].
Defined.



(** * Properties of the alert system *)

Lemma fold_trigger_callback (alert : Alert)
  (cbs : list (Alert -> outcome unit)) :
  forall a,
    alert_history (fold_left (trigger_callback alert) cbs a) = alert_history a
    /\ alert_callbacks (fold_left (trigger_callback alert) cbs a)
       = alert_callbacks a
    /\ mails_sent (fold_left (trigger_callback alert) cbs a) = mails_sent a
    /\ callback_results (fold_left (trigger_callback alert) cbs a)
       = callback_results a ++ map (fun cb => cb alert) cbs
    /\ alert_log (fold_left (trigger_callback alert) cbs a)
       = alert_log a
         ++ flat_map (fun cb => match cb alert with
                                | Ok _ => []
                                | Raise e => [LogError e]
                                end) cbs.
Proof.
  induction cbs as [|cb cbs IH]; intro a; simpl.
  - rewrite !app_nil_r. auto.
  - destruct (IH (trigger_callback alert a cb)) as [H1 [H2 [H3 [H4 H5]]]].
    rewrite H1, H2, H3, H4, H5. cbn. rewrite <- !app_assoc. auto.
Qed.

(** X17.  [send_alert] returns [True] whatever happens to the mail and to
    the callbacks.  The alert is appended to the history, the mail is
    recorded as sent only when sending worked, and every registered
    callback is called once with the alert, in the order of registration,
    also after an earlier callback has raised. *)
Theorem send_alert_always_true (clock : nat) (mail : outcome unit)
  (detection_data : Detection) (report_path : option String.string)
  (a : AlertSystem) :
  let alert := {| alert_timestamp := clock;
                  alert_detection := detection_data;
                  alert_report_path := path_or_none report_path |} in
  snd (send_alert clock mail detection_data report_path a) = true
  /\ alert_history (fst (send_alert clock mail detection_data report_path a))
     = alert_history a ++ [alert]
  /\ mails_sent (fst (send_alert clock mail detection_data report_path a))
     = mails_sent a ++ match mail with Ok _ => [alert] | Raise _ => [] end
  /\ callback_results
       (fst (send_alert clock mail detection_data report_path a))
     = callback_results a ++ map (fun cb => cb alert) (alert_callbacks a)
  /\ alert_callbacks
       (fst (send_alert clock mail detection_data report_path a))
     = alert_callbacks a.
Proof.
  intro alert. unfold send_alert. fold alert. cbn [fst snd].
  match goal with
  | |- context [fold_left (trigger_callback alert) ?cbs ?a0] =>
      destruct (fold_trigger_callback alert cbs a0) as [H1 [H2 [H3 [H4 _]]]]
  end.
  rewrite H1, H2, H3, H4.
  split; [reflexivity|].
  destruct mail as [u|e]; cbn; rewrite ?app_nil_r; auto.
Qed.

(** * Properties of the confidence score at a zero threshold *)

(** X18.  With the threshold at zero the score is not a fraction: for
    accepted powers of positive mean the quotient is infinite and the
    confidence is 1; for a mean of exactly zero the quotient is [0/0] and
    the confidence is [NaN], which the two comparisons of the clamp let
    through. *)
Theorem confidence_at_zero_threshold (cfg : Config) (qs : list Q) :
  threshold_power cfg == 0 ->
  qs <> [] ->
  (0 < Qmean qs -> _calculate_confidence cfg (map Fin qs) = Fin 1)
  /\ (Qmean qs == 0 -> _calculate_confidence cfg (map Fin qs) = NaN).
Proof.
  intros Hthr Hne. unfold _calculate_confidence.
  destruct (np_mean_Fin qs Hne) as [m [Hm Em]]. rewrite Hm.
  cbn [fsub fneg fadd]. unfold fdiv.
  assert (Habs : Qabs (threshold_power cfg) == 0)
    by (rewrite Hthr; reflexivity).
  rewrite (proj1 (Qeq_alt _ _) Habs).
  split; intro H.
  - assert (Hpos : 0 < m + - threshold_power cfg) by lra.
    rewrite (proj1 (Qgt_alt (m + - threshold_power cfg) 0) Hpos).
    reflexivity.
  - assert (Hzero : m + - threshold_power cfg == 0) by lra.
    rewrite (proj1 (Qeq_alt _ _) Hzero). reflexivity.
Qed.

Lemma confidence_at_zero_threshold_witness :
  (0 < Qmean [3] ->
   _calculate_confidence
     {| sample_rate := 4; gain := 1; sample_size := 4; threshold_power := 0 |}
     (map Fin [3]) = Fin 1)
  /\ (Qmean [3] == 0 ->
      _calculate_confidence
        {| sample_rate := 4; gain := 1; sample_size := 4;
           threshold_power := 0 |}
        (map Fin [3]) = NaN).
Proof.
  apply (confidence_at_zero_threshold
           {| sample_rate := 4; gain := 1; sample_size := 4;
              threshold_power := 0 |} [3]).
  - reflexivity.
  - discriminate.
Defined.

(** * Properties of the monitoring button *)

Section WindowProperties.

Variable K : Numerics.

(** X19.  Pressed while the window is not monitoring, with a number in the
    entry and a device that opens and accepts its settings, the button
    starts the engine: the window is monitoring, the engine is running with
    the window's handler as its callback, and the device held is tuned to
    the entry times one million. *)
Theorem toggle_on_starts_engine (mhz : Q) (w : driver)
  (handler : Detection -> outcome unit) (g : DetectorGUI) (dev : RtlSdr) :
  monitoring g = false ->
  running (signal_processor g) = false ->
  open_device w = Ok dev ->
  accept_sample_rate w = Ok tt ->
  accept_gain w = Ok tt ->
  accept_center_freq w = Ok tt ->
  snd (toggle_monitoring K (Some mhz) w handler g) = Ok tt
  /\ monitoring (fst (toggle_monitoring K (Some mhz) w handler g)) = true
  /\ running (signal_processor
                (fst (toggle_monitoring K (Some mhz) w handler g))) = true
  /\ callback (signal_processor
                 (fst (toggle_monitoring K (Some mhz) w handler g)))
     = Some handler
  /\ sdr (signal_processor
            (fst (toggle_monitoring K (Some mhz) w handler g)))
     = Some {| dev_sample_rate := sample_rate (config (signal_processor g));
               dev_gain := gain (config (signal_processor g));
               center_freq := Some (mhz * 1000000) |}
  /\ shown (fst (toggle_monitoring K (Some mhz) w handler g))
     = shown g ++ [ShowMonitoring].
Proof.
  intros Hmon Hrun Hopen Hrate Hgain Hfreq.
  unfold toggle_monitoring. rewrite Hmon. cbn [negb].
  unfold initialize_sdr, error_handler, initialize_sdr_body.
  rewrite Hopen, Hrate, Hgain. cbn.
  unfold set_frequency. cbn. rewrite Hfreq. cbn.
  unfold start_processing. cbn. rewrite Hrun. cbn.
  repeat split; reflexivity.
Qed.


(** X21.  When the device opens and takes its settings but refuses the
    frequency, the press shows an error and leaves the window not
    monitoring and the engine not running, yet the device opened for the
    attempt stays held; [cleanup] then does nothing, so the window never
    releases it. *)
Theorem failed_tuning_keeps_device (mhz : Q) (w : driver)
  (handler : Detection -> outcome unit) (g : DetectorGUI) (dev : RtlSdr)
  (e : exn) :
  monitoring g = false ->
  running (signal_processor g) = false ->
  open_device w = Ok dev ->
  accept_sample_rate w = Ok tt ->
  accept_gain w = Ok tt ->
  accept_center_freq w = Raise e ->
  monitoring (fst (toggle_monitoring K (Some mhz) w handler g)) = false
  /\ running (signal_processor
                (fst (toggle_monitoring K (Some mhz) w handler g))) = false
  /\ sdr (signal_processor
            (fst (toggle_monitoring K (Some mhz) w handler g))) <> None
  /\ shown (fst (toggle_monitoring K (Some mhz) w handler g))
     = shown g ++ [ErrorFrequency]
  /\ cleanup K (fst (toggle_monitoring K (Some mhz) w handler g))
     = (fst (toggle_monitoring K (Some mhz) w handler g), Ok tt).
Proof.
  intros Hmon Hrun Hopen Hrate Hgain Hfreq.
  unfold toggle_monitoring. rewrite Hmon. cbn [negb].
  unfold initialize_sdr, error_handler, initialize_sdr_body.
  rewrite Hopen, Hrate, Hgain. cbn.
  unfold set_frequency. cbn. rewrite Hfreq. cbn.
  unfold cleanup. cbn. rewrite ?Hmon, ?Hrun.
  repeat split; try reflexivity. discriminate.
Qed.

End WindowProperties.

Lemma toggle_on_starts_engine_witness :
  snd (toggle_monitoring Gaussian.numerics (Some 433) driver_ok failing_sink
         window_fresh) = Ok tt
  /\ monitoring (fst (toggle_monitoring Gaussian.numerics (Some 433)
                        driver_ok failing_sink window_fresh)) = true
  /\ running (signal_processor
                (fst (toggle_monitoring Gaussian.numerics (Some 433)
                        driver_ok failing_sink window_fresh))) = true
  /\ callback (signal_processor
                 (fst (toggle_monitoring Gaussian.numerics (Some 433)
                         driver_ok failing_sink window_fresh)))
     = Some failing_sink
  /\ sdr (signal_processor
            (fst (toggle_monitoring Gaussian.numerics (Some 433) driver_ok
                    failing_sink window_fresh)))
     = Some {| dev_sample_rate :=
                 sample_rate (config (signal_processor window_fresh));
               dev_gain := gain (config (signal_processor window_fresh));
               center_freq := Some (433 * 1000000) |}
  /\ shown (fst (toggle_monitoring Gaussian.numerics (Some 433) driver_ok
                   failing_sink window_fresh))
     = shown window_fresh ++ [ShowMonitoring].
Proof.
  apply (toggle_on_starts_engine Gaussian.numerics 433 driver_ok failing_sink
           window_fresh device4); reflexivity.
Defined.


Lemma failed_tuning_keeps_device_witness :
  monitoring (fst (toggle_monitoring Gaussian.numerics (Some 433)
                     driver_no_tuning failing_sink window_fresh)) = false
  /\ running (signal_processor
                (fst (toggle_monitoring Gaussian.numerics (Some 433)
                        driver_no_tuning failing_sink window_fresh))) = false
  /\ sdr (signal_processor
            (fst (toggle_monitoring Gaussian.numerics (Some 433)
                    driver_no_tuning failing_sink window_fresh))) <> None
  /\ shown (fst (toggle_monitoring Gaussian.numerics (Some 433)
                   driver_no_tuning failing_sink window_fresh))
     = shown window_fresh ++ [ErrorFrequency]
  /\ cleanup Gaussian.numerics
       (fst (toggle_monitoring Gaussian.numerics (Some 433) driver_no_tuning
               failing_sink window_fresh))
     = (fst (toggle_monitoring Gaussian.numerics (Some 433) driver_no_tuning
               failing_sink window_fresh), Ok tt).
Proof.
  apply (failed_tuning_keeps_device Gaussian.numerics 433 driver_no_tuning
           failing_sink window_fresh device4 ValueError); reflexivity.
Defined.

(** * What makes a bin a peak *)

Lemma flt_feq_refl_r (a b : npfloat) : flt a b = true -> feq b b = true.
Proof.
  destruct a as [| |p|], b as [| |q|]; try discriminate; try reflexivity;
    intros _; apply feq_Fin; reflexivity.
Qed.

Lemma feq_feq_not_flt (a b c : npfloat) :
  feq a c = true -> feq b c = true -> flt a b = false.
Proof.
  destruct a as [| |p|], b as [| |q|], c as [| |r|]; try discriminate;
    try reflexivity.
  intros H1 H2. apply feq_Fin in H1. apply feq_Fin in H2.
  apply flt_Fin_false. rewrite H1, H2. apply Qle_refl.
Qed.

Lemma feq_flt_not_flt (a b c : npfloat) :
  feq a c = true -> flt b c = true -> flt a b = false.
Proof.
  destruct a as [| |p|], b as [| |q|], c as [| |r|]; try discriminate;
    try reflexivity.
  intros H1 H2. apply feq_Fin in H1. apply flt_Fin in H2.
  apply flt_Fin_false. rewrite H1. apply Qlt_le_weak. exact H2.
Qed.

Lemma feq_flt_trans (a b c : npfloat) :
  feq a c = true -> flt b c = true -> flt b a = true.
Proof.
  destruct a as [| |p|], b as [| |q|], c as [| |r|]; try discriminate;
    try reflexivity.
  intros H1 H2. apply feq_Fin in H1. apply flt_Fin in H2.
  apply flt_Fin. rewrite H1. exact H2.
Qed.

Lemma skip_plateau_equal (x : list npfloat) (xi : npfloat) (i_max : nat) :
  forall fuel i_ahead j,
    (i_ahead <= j < skip_plateau fuel x xi i_ahead i_max)%nat ->
    feq (at_ x j) xi = true.
Proof.
  induction fuel as [|fuel IH]; intros i_ahead j Hj; simpl in Hj.
  - lia.
  - destruct (i_ahead <? i_max)%nat; simpl in Hj; [|lia].
    destruct (feq (at_ x i_ahead) xi) eqn:E; [|lia].
    destruct (Nat.eq_dec j i_ahead) as [-> | Hne]; [exact E|].
    apply (IH (S i_ahead)). lia.
Qed.

(** A local maximum is the midpoint of a plateau of equal samples with a
    strictly lower sample on either side. *)
Lemma local_maxima_loop_plateau (x : list npfloat) (i_max : nat) :
  forall fuel i p,
    In p (local_maxima_loop fuel x i i_max) ->
    exists lo hi,
      (i <= lo /\ lo <= hi /\ hi < i_max)%nat
      /\ p = ((lo + hi) / 2)%nat
      /\ (forall j, (lo <= j <= hi)%nat ->
                    feq (at_ x j) (at_ x lo) = true)
      /\ flt (at_ x (lo - 1)) (at_ x lo) = true
      /\ flt (at_ x (S hi)) (at_ x lo) = true.
Proof.
  induction fuel as [|fuel IH]; intros i p Hp; cbn [local_maxima_loop] in Hp.
  - contradiction.
  - destruct (i <? i_max)%nat eqn:E; [|contradiction].
    apply Nat.ltb_lt in E.
    assert (Hnext : In p (local_maxima_loop fuel x (S i) i_max) ->
                    exists lo hi,
                      (i <= lo /\ lo <= hi /\ hi < i_max)%nat
                      /\ p = ((lo + hi) / 2)%nat
                      /\ (forall j, (lo <= j <= hi)%nat ->
                                    feq (at_ x j) (at_ x lo) = true)
                      /\ flt (at_ x (lo - 1)) (at_ x lo) = true
                      /\ flt (at_ x (S hi)) (at_ x lo) = true).
    { intro H. destruct (IH _ _ H) as [lo [hi [Hb Hrest]]].
      exists lo, hi. split; [lia | exact Hrest]. }
    destruct (flt (at_ x (i - 1)) (at_ x i)) eqn:Erise; [|auto].
    pose proof (skip_plateau_ge (i_max - S i) x (at_ x i) (S i) i_max) as Hge.
    pose proof (skip_plateau_le (i_max - S i) x (at_ x i) (S i) i_max E) as Hle.
    pose proof (skip_plateau_equal x (at_ x i) i_max (i_max - S i) (S i))
      as Heq.
    set (i_ahead := skip_plateau (i_max - S i) x (at_ x i) (S i) i_max) in *.
    destruct (flt (at_ x i_ahead) (at_ x i)) eqn:Efall; [|auto].
    destruct Hp as [<- | Hp].
    + exists i, (i_ahead - 1)%nat.
      split; [lia|]. split; [reflexivity|]. split; [|split].
      * intros j Hj. destruct (Nat.eq_dec j i) as [-> | Hne].
        -- eapply flt_feq_refl_r. exact Erise.
        -- apply Heq. lia.
      * exact Erise.
      * replace (S (i_ahead - 1)) with i_ahead by lia. exact Efall.
    + destruct (IH _ _ Hp) as [lo [hi [Hb Hrest]]].
      exists lo, hi. split; [lia | exact Hrest].
Qed.

(** X22.  Every bin that [find_peaks] reports is a local maximum of the
    spectrum: it is the midpoint of a run of equal samples, the sample
    before the run and the sample after it are strictly lower, and so
    neither neighbour of the reported bin is strictly higher than it. *)
Theorem reported_bin_is_local_maximum (x : list npfloat) (height : Q)
  (distance p : nat) :
  In p (find_peaks x height distance) ->
  flt (at_ x p) (at_ x (p - 1)) = false
  /\ flt (at_ x p) (at_ x (S p)) = false
  /\ exists lo hi,
       (1 <= lo /\ lo <= p /\ p <= hi /\ hi + 1 < length x)%nat
       /\ p = ((lo + hi) / 2)%nat
       /\ (forall j, (lo <= j <= hi)%nat -> feq (at_ x j) (at_ x p) = true)
       /\ flt (at_ x (lo - 1)) (at_ x p) = true
       /\ flt (at_ x (S hi)) (at_ x p) = true.
Proof.
  intro Hp. apply find_peaks_candidates in Hp. apply mask_In in Hp.
  destruct (local_maxima_loop_plateau x _ _ _ _ Hp)
    as [lo [hi [Hb [Hmid [Hflat [Hrise Hfall]]]]]].
  assert (Hin : (lo <= p <= hi)%nat).
  { subst p. split.
    - apply Nat.div_le_lower_bound; lia.
    - apply Nat.Div0.div_le_upper_bound; lia. }
  assert (Hplo : feq (at_ x p) (at_ x lo) = true) by (apply Hflat; exact Hin).
  assert (Hrefl : feq (at_ x lo) (at_ x lo) = true)
    by (eapply flt_feq_refl_r; exact Hrise).
  split; [|split].
  - destruct (Nat.eq_dec p lo) as [E | Hne].
    + rewrite E at 2. eapply feq_flt_not_flt; [exact Hplo | exact Hrise].
    + eapply feq_feq_not_flt; [exact Hplo | apply Hflat; lia].
  - destruct (Nat.eq_dec p hi) as [E | Hne].
    + rewrite E at 2. eapply feq_flt_not_flt; [exact Hplo | exact Hfall].
    + eapply feq_feq_not_flt; [exact Hplo | apply Hflat; lia].
  - exists lo, hi. split; [lia|]. split; [exact Hmid|].
    split; [|split].
    + intros j Hj. specialize (Hflat j Hj).
      destruct (at_ x j) as [| |a|], (at_ x p) as [| |b|],
        (at_ x lo) as [| |c|]; try discriminate; try reflexivity.
      apply feq_Fin in Hflat. apply feq_Fin in Hplo. apply feq_Fin.
      rewrite Hflat, Hplo. reflexivity.
    + eapply feq_flt_trans; [exact Hplo | exact Hrise].
    + eapply feq_flt_trans; [exact Hplo | exact Hfall].
Qed.

Lemma reported_bin_is_local_maximum_witness :
  flt (at_ spectrum_tie 3) (at_ spectrum_tie (3 - 1)) = false
  /\ flt (at_ spectrum_tie 3) (at_ spectrum_tie 4) = false
  /\ exists lo hi,
       (1 <= lo /\ lo <= 3 /\ 3 <= hi /\ hi + 1 < length spectrum_tie)%nat
       /\ 3%nat = ((lo + hi) / 2)%nat
       /\ (forall j, (lo <= j <= hi)%nat ->
                     feq (at_ spectrum_tie j) (at_ spectrum_tie 3) = true)
       /\ flt (at_ spectrum_tie (lo - 1)) (at_ spectrum_tie 3) = true
       /\ flt (at_ spectrum_tie (S hi)) (at_ spectrum_tie 3) = true.
Proof.
  apply (reported_bin_is_local_maximum spectrum_tie 1 peak_distance 3).
  vm_compute. left. reflexivity.
Defined.

(** * What the store holds *)

Lemma fle_fin_or_pinf (t : Q) (v : npfloat) :
  fle (Fin t) v = true -> fin_or_pinf v.
Proof. destruct v; simpl; try discriminate; auto. Qed.

Lemma fold_fadd_fin_or_pinf (l : list npfloat) :
  Forall fin_or_pinf l ->
  forall acc, fin_or_pinf acc -> fin_or_pinf (fold_left fadd l acc).
Proof.
  induction 1 as [|v l Hv _ IH]; intros acc Hacc; simpl.
  - exact Hacc.
  - apply IH. destruct acc, v; simpl in *; auto.
Qed.

Lemma confidence_unit_interval (cfg : Config) (ps : list npfloat) :
  ps <> [] ->
  Forall (fun v => fle (Fin (threshold_power cfg)) v = true) ps ->
  ~ threshold_power cfg == 0 ->
  exists c, _calculate_confidence cfg ps = Fin c /\ 0 <= c /\ c <= 1.
Proof.
  intros Hne Hab Hthr. unfold _calculate_confidence, np_mean, np_sum.
  assert (Hsum : fin_or_pinf (fold_left fadd ps (Fin 0))).
  { apply fold_fadd_fin_or_pinf; [|exact I].
    eapply Forall_impl; [|exact Hab]. intros v. apply fle_fin_or_pinf. }
  pose proof (count_positive ps Hne) as Hn.
  pose proof (Qabs_positive _ Hthr) as Ha.
  unfold fdiv at 2.
  destruct (Qcompare_spec (inject_Z (Z.of_nat (length ps))) 0) as [E|E|E];
    try lra.
  destruct (fold_left fadd ps (Fin 0)) as [| |s|]; try contradiction.
  - cbn [fsub fneg fadd]. unfold fdiv.
    destruct (Qcompare_spec (Qabs (threshold_power cfg)) 0) as [F|F|F];
      try lra.
    destruct (py_clamp_Fin ((s / inject_Z (Z.of_nat (length ps))
                             + - threshold_power cfg)
                            / Qabs (threshold_power cfg)))
      as [c [Hc [_ Hb]]].
    exists c. split; [exact Hc | exact Hb].
  - cbn [fsub fneg fadd]. unfold fdiv.
    destruct (Qcompare_spec (Qabs (threshold_power cfg)) 0) as [F|F|F];
      try lra.
    exists 1. split; [reflexivity | split; discriminate].
Qed.

Lemma analyze_signal_well_formed (cfg : Config) (now : nat) (fr : FftResult)
  (store store' : list Detection) (d : Detection) :
  _analyze_signal cfg now fr store = Ok (Some d, store') ->
  well_formed_record cfg d.
Proof.
  intro H. pose proof H as H0.
  destruct (analyze_signal_detection _ _ _ _ _ _ H)
    as [_ [_ [_ [_ [Hconf _]]]]].
  destruct (detection_powers_above _ _ _ _ _ _ H) as [Hne Hab].
  split; [|split; [exact Hne | split; [exact Hab | exact Hconf]]].
  unfold _analyze_signal in H0.
  destruct (0 <? _)%nat; [|discriminate].
  destruct (index_all (frequencies fr) _) as [fs|e] eqn:Ef;
    cbn [bind] in H0; [|discriminate].
  destruct (index_all (power fr) _) as [ps|e] eqn:Ep;
    cbn [bind] in H0; [|discriminate].
  injection H0 as <- _. simpl.
  rewrite (index_all_length _ _ _ Ef), (index_all_length _ _ _ Ep).
  reflexivity.
Qed.

(** X23.  Whatever the spectrum holds, infinities and [NaN] included, a
    detection made under a non-zero threshold carries a confidence that is
    a number between 0 and 1. *)
Theorem detection_confidence_in_unit_interval (cfg : Config) (now : nat)
  (fr : FftResult) (store store' : list Detection) (d : Detection) :
  _analyze_signal cfg now fr store = Ok (Some d, store') ->
  ~ threshold_power cfg == 0 ->
  exists c, confidence d = Fin c /\ 0 <= c /\ c <= 1.
Proof.
  intros H Hthr.
  destruct (analyze_signal_well_formed _ _ _ _ _ _ H) as [_ [Hne [Hab Hc]]].
  rewrite Hc. apply confidence_unit_interval; assumption.
Qed.

Lemma detection_confidence_in_unit_interval_witness :
  exists c, confidence detection_one_peak = Fin c /\ 0 <= c /\ c <= 1.
Proof.
  apply (detection_confidence_in_unit_interval cfg4 0 fft_one_peak []
           [detection_one_peak] detection_one_peak).
  - vm_compute. reflexivity.
  - simpl. intro H. discriminate H.
Defined.

Section StoreInvariant.

Variable K : Numerics.

Lemma loop_pass_well_formed (t : tick K) (st : SignalProcessor) :
  Forall (well_formed_record (config st)) (detected_signals st) ->
  Forall (well_formed_record (config st))
         (detected_signals (loop_pass K t st))
  /\ config (loop_pass K t st) = config st.
Proof.
  intro Hwf. unfold loop_pass, try_body.
  destruct (read t) as [samples|e]; [|cbn; auto].
  destruct (_compute_fft K (config st) (window st) samples) as [fr|e];
    [|cbn; auto].
  destruct (_analyze_signal (config st) (now t) fr (detected_signals st))
    as [[o store]|e] eqn:Ea; [|cbn; auto].
  assert (Hstore : Forall (well_formed_record (config st)) store).
  { pose proof (analyze_signal_store _ _ _ _ _ _ Ea) as ->.
    apply Forall_app. split; [exact Hwf|].
    destruct o as [d|]; [|constructor].
    constructor; [|constructor].
    eapply analyze_signal_well_formed. exact Ea. }
  destruct o as [d|].
  - cbn [callback set_detected].
    destruct (callback st) as [cb|]; [destruct (cb d)|]; cbn; auto.
  - destruct (callback st); cbn; auto.
Qed.

(** X24.  The loop keeps the store well formed: if every record in the
    store has as many frequencies as powers, at least one power, every
    power at or above the threshold and the confidence computed from its
    powers, then the same holds of the store after any run of the loop;
    and with a non-zero threshold every confidence in it is a number
    between 0 and 1. *)
Theorem loop_keeps_store_well_formed (ticks : list (tick K))
  (st : SignalProcessor) :
  Forall (well_formed_record (config st)) (detected_signals st) ->
  Forall (well_formed_record (config st))
         (detected_signals (fst (_processing_loop K ticks st)))
  /\ (~ threshold_power (config st) == 0 ->
      Forall (fun d => exists c, confidence d = Fin c /\ 0 <= c /\ c <= 1)
             (detected_signals (fst (_processing_loop K ticks st)))).
Proof.
  intro Hwf.
  assert (Hinv : Forall (well_formed_record (config st))
                        (detected_signals (fst (_processing_loop K ticks st)))).
  { revert st Hwf. induction ticks as [|t ticks IH]; intros st Hwf;
      cbn [_processing_loop].
    - destruct (running st); [destruct (sdr st)|]; cbn; exact Hwf.
    - destruct (running st); [destruct (sdr st)|]; cbn; try exact Hwf.
      destruct (loop_pass_well_formed t st Hwf) as [Hwf' Hcfg].
      rewrite <- Hcfg in Hwf' |- *. apply IH. exact Hwf'. }
  split; [exact Hinv|].
  intro Hthr. eapply Forall_impl; [|exact Hinv].
  intros d [_ [Hne [Hab Hc]]]. rewrite Hc.
  apply confidence_unit_interval; assumption.
Qed.

End StoreInvariant.

Lemma loop_keeps_store_well_formed_witness :
  Forall (well_formed_record (config engine_failing_sink))
         (detected_signals
            (fst (_processing_loop Gaussian.numerics [tick_dc]
                    engine_failing_sink)))
  /\ (~ threshold_power (config engine_failing_sink) == 0 ->
      Forall (fun d => exists c, confidence d = Fin c /\ 0 <= c /\ c <= 1)
             (detected_signals
                (fst (_processing_loop Gaussian.numerics [tick_dc]
                        engine_failing_sink)))).
Proof.
  apply (loop_keeps_store_well_formed Gaussian.numerics [tick_dc]
           engine_failing_sink).
  constructor.
Defined.

(** * The table of the report *)

Section ReportProperties.

Variable cell : Type.
Variable header : list cell.
Variable show_time : nat -> cell.
Variable show_frequency : Q -> cell.
Variable show_power show_percent : npfloat -> cell.

Lemma length_flat_map_rows (detected : list Detection) :
  length (flat_map (detection_rows cell show_time show_frequency show_power
                      show_percent) detected)
  = list_sum (map (fun d => Nat.min (length (det_frequencies d))
                                    (length (det_powers d))) detected).
Proof.
  induction detected as [|d detected IH]; simpl.
  - reflexivity.
  - rewrite length_app, IH. f_equal.
    unfold detection_rows. rewrite length_map, length_combine. reflexivity.
Qed.

(** X25.  For a well-formed store the table of the report has its header
    row and then exactly one row per recorded peak: the pairing of
    frequencies with powers drops nothing, and every record contributes at
    least one row. *)
Theorem report_table_has_a_row_per_peak (cfg : Config)
  (detected : list Detection) :
  Forall (well_formed_record cfg) detected ->
  length (signal_table_data cell header show_time show_frequency show_power
            show_percent detected)
  = S (list_sum (map (fun d => length (det_powers d)) detected))
  /\ (length detected
      < length (signal_table_data cell header show_time show_frequency
                  show_power show_percent detected))%nat.
Proof.
  intro Hwf. unfold signal_table_data. cbn [length].
  rewrite length_flat_map_rows.
  assert (E : list_sum (map (fun d => Nat.min (length (det_frequencies d))
                                              (length (det_powers d)))
                            detected)
              = list_sum (map (fun d => length (det_powers d)) detected)
              /\ (length detected
                  <= list_sum (map (fun d => length (det_powers d))
                                   detected))%nat).
  { induction Hwf as [|d detected [Hlen [Hne _]] _ [IH1 IH2]]; simpl.
    - split; [reflexivity | lia].
    - rewrite IH1, Hlen, Nat.min_id.
      split; [reflexivity|].
      destruct (det_powers d); [congruence | simpl; lia]. }
  destruct E as [E1 E2]. rewrite E1. split; [reflexivity | lia].
Qed.

End ReportProperties.

Lemma report_table_has_a_row_per_peak_witness :
  length (signal_table_data nat [] (fun n => n) (fun _ => O) (fun _ => O)
            (fun _ => O) [detection_one_peak])
  = S (list_sum (map (fun d => length (det_powers d)) [detection_one_peak]))
  /\ (length [detection_one_peak]
      < length (signal_table_data nat [] (fun n => n) (fun _ => O)
                  (fun _ => O) (fun _ => O) [detection_one_peak]))%nat.
Proof.
  apply (report_table_has_a_row_per_peak nat [] (fun n => n) (fun _ => O)
           (fun _ => O) (fun _ => O) cfg4 [detection_one_peak]).
  constructor; [|constructor].
  repeat split; try reflexivity; try discriminate.
  constructor; [reflexivity | constructor].
Defined.

(** * The strongest candidate survives *)

Lemma clear_earlier_only (peaks : list nat) (d pj : Z) :
  forall k keep i,
    nth i keep false = true ->
    nth i (clear_earlier peaks d pj k keep) false = false ->
    (i < k)%nat /\ (pj - Z.of_nat (nth i peaks O) < d)%Z.
Proof.
  induction k as [|k IH]; intros keep i Hkept Hgone;
    cbn [clear_earlier] in Hgone.
  - congruence.
  - destruct (pj - Z.of_nat (nth k peaks O) <? d)%Z eqn:E; [|congruence].
    destruct (Nat.eq_dec i k) as [-> | Hne].
    + split; [lia | apply Z.ltb_lt; exact E].
    + destruct (IH (clear k keep) i) as [Hlt Hclose].
      * rewrite nth_clear. destruct (Nat.eqb_spec i k); [lia | exact Hkept].
      * exact Hgone.
      * split; [lia | exact Hclose].
Qed.

Lemma clear_later_only (peaks : list nat) (d pj : Z) :
  forall todo k keep i,
    nth i keep false = true ->
    nth i (clear_later peaks d pj todo k keep) false = false ->
    (k <= i)%nat /\ (Z.of_nat (nth i peaks O) - pj < d)%Z.
Proof.
  induction todo as [|todo IH]; intros k keep i Hkept Hgone;
    cbn [clear_later] in Hgone.
  - congruence.
  - destruct (Z.of_nat (nth k peaks O) - pj <? d)%Z eqn:E; [|congruence].
    destruct (Nat.eq_dec i k) as [-> | Hne].
    + split; [lia | apply Z.ltb_lt; exact E].
    + destruct (IH (S k) (clear k keep) i) as [Hlt Hclose].
      * rewrite nth_clear. destruct (Nat.eqb_spec i k); [lia | exact Hkept].
      * exact Hgone.
      * split; [lia | exact Hclose].
Qed.

(** A visit removes only positions in conflict with the visited one. *)
Lemma visit_peak_only_close (peaks : list nat) (d : Z) (keep : list bool)
  (j i : nat) :
  ascending peaks -> (j < length peaks)%nat -> (i < length peaks)%nat ->
  nth i keep false = true ->
  nth i (visit_peak peaks d keep j) false = false ->
  i <> j /\ too_close peaks d i j.
Proof.
  intros Hasc Hj Hi Hkept Hgone. unfold visit_peak in Hgone.
  destruct (nth j keep false) eqn:Ej; [|congruence].
  set (pj := Z.of_nat (nth j peaks O)) in *.
  destruct (nth i (clear_earlier peaks d pj j keep) false) eqn:E1.
  - destruct (clear_later_only _ _ _ _ _ _ _ E1 Hgone) as [Hge Hclose].
    split; [lia|]. unfold too_close. fold pj.
    assert (nth j peaks O <= nth i peaks O)%nat by (apply Hasc; lia).
    unfold pj. lia.
  - destruct (clear_earlier_only _ _ _ _ _ _ Hkept E1) as [Hlt Hclose].
    split; [lia|]. unfold too_close. fold pj.
    assert (nth i peaks O <= nth j peaks O)%nat by (apply Hasc; lia).
    unfold pj in *. lia.
Qed.

Lemma visit_peak_self (peaks : list nat) (d : Z) (keep : list bool) (j : nat) :
  nth j (visit_peak peaks d keep j) false = nth j keep false.
Proof.
  unfold visit_peak. destruct (nth j keep false) eqn:E; [|exact E].
  rewrite (proj1 (proj2 (clear_later_spec _ _ _ _ _ _))) by lia.
  rewrite (proj1 (proj2 (clear_earlier_spec _ _ _ _ _))) by lia.
  exact E.
Qed.

Lemma too_close_sym (peaks : list nat) (d : Z) (i j : nat) :
  too_close peaks d i j -> too_close peaks d j i.
Proof. unfold too_close. lia. Qed.

(** Once a kept position has cleared its neighbourhood, no later visit
    removes it. *)
Lemma fold_visit_keeps (peaks : list nat) (d : Z) (j0 : nat) :
  ascending peaks -> (j0 < length peaks)%nat ->
  forall order keep,
    Forall (fun j => (j < length peaks)%nat) order ->
    nth j0 keep false = true ->
    (forall i, (i < length peaks)%nat -> i <> j0 -> too_close peaks d i j0 ->
               nth i keep false = false) ->
    nth j0 (fold_left (visit_peak peaks d) order keep) false = true.
Proof.
  intros Hasc Hj0. induction order as [|j order IH];
    intros keep Hord Hkept Hcleared; simpl.
  - exact Hkept.
  - inversion Hord as [|? ? Hj Hrest]; subst.
    apply IH; [exact Hrest | |].
    + destruct (Nat.eq_dec j j0) as [-> | Hne].
      * rewrite visit_peak_self. exact Hkept.
      * destruct (nth j0 (visit_peak peaks d keep j) false) eqn:E;
          [reflexivity|].
        destruct (visit_peak_only_close peaks d keep j j0 Hasc Hj Hj0 Hkept E)
          as [_ Hclose].
        assert (Hjk : nth j keep false = true).
        { unfold visit_peak in E. destruct (nth j keep false);
            [reflexivity | congruence]. }
        rewrite (Hcleared j Hj Hne (too_close_sym _ _ _ _ Hclose)) in Hjk.
        discriminate.
    + intros i Hi Hne Hclose.
      destruct (nth i (visit_peak peaks d keep j) false) eqn:E; [|reflexivity].
      apply visit_peak_monotone in E.
      rewrite (Hcleared i Hi Hne Hclose) in E. discriminate.
Qed.

Lemma nth_repeat_true (n i : nat) :
  (i < n)%nat -> nth i (repeat true n) false = true.
Proof.
  revert i. induction n as [|n IH]; intros i Hi; [lia|].
  destruct i as [|i]; simpl; [reflexivity | apply IH; lia].
Qed.

Lemma nth_In_mask {A : Type} (l : list A) (keep : list bool) (i : nat) (d : A) :
  (i < length l)%nat -> nth i keep false = true -> In (nth i l d) (mask l keep).
Proof.
  revert keep i. induction l as [|a l IH]; intros keep i Hi Hk; simpl in *.
  - lia.
  - destruct keep as [|k keep]; [destruct i; discriminate|].
    destruct i as [|i]; simpl in *.
    + subst k. left. reflexivity.
    + destruct k; [right|]; apply IH; auto; lia.
Qed.

(** The position visited first is reported. *)
Lemma first_visited_is_kept (peaks : list nat) (priority : list npfloat)
  (distance j0 : nat) (rest : list nat) :
  StronglySorted lt peaks -> length priority = length peaks ->
  rev (argsort priority) = j0 :: rest ->
  In (nth j0 peaks O)
     (mask peaks (_select_by_peak_distance peaks priority distance)).
Proof.
  intros Hsorted Hlen Hrev.
  pose proof (sorted_ascending _ Hsorted) as Hasc.
  assert (Hall : Forall (fun j => (j < length peaks)%nat) (j0 :: rest)).
  { rewrite <- Hrev. apply Forall_forall. intros j Hj.
    apply in_rev in Hj. apply argsort_In in Hj. lia. }
  inversion Hall as [|? ? Hj0 Hrest]; subst.
  apply nth_In_mask; [exact Hj0|].
  unfold _select_by_peak_distance. rewrite Hrev. simpl.
  assert (Hstart : nth j0 (repeat true (length peaks)) false = true)
    by (apply nth_repeat_true; exact Hj0).
  apply fold_visit_keeps; try assumption.
  - rewrite visit_peak_self. exact Hstart.
  - intros i Hi Hne Hclose.
    apply visit_peak_clears; assumption.
Qed.

Lemma flt_asym (a b : npfloat) : flt a b = true -> flt b a = false.
Proof.
  destruct a as [| |p|], b as [| |q|]; try discriminate; try reflexivity.
  intro H. apply flt_Fin in H. apply flt_Fin_false. apply Qlt_le_weak, H.
Qed.

Lemma flt_chain (a b c : npfloat) :
  feq a a = true -> feq b b = true -> feq c c = true ->
  flt a b = true -> flt c b = false -> flt c a = false.
Proof.
  destruct a as [| |p|], b as [| |q|], c as [| |r|]; try discriminate;
    try reflexivity.
  intros _ _ _ H1 H2. apply flt_Fin in H1. apply flt_Fin_false in H2.
  apply flt_Fin_false. lra.
Qed.

Lemma insert_pos_sorted (priority : list npfloat) (j : nat) :
  numeric priority j ->
  forall sorted,
    Forall (numeric priority) sorted ->
    StronglySorted (not_below priority) sorted ->
    StronglySorted (not_below priority) (insert_pos priority j sorted).
Proof.
  intros Hj sorted Hnum H. induction H as [|k sorted Hs IH Hk]; simpl.
  - constructor; constructor.
  - inversion Hnum as [|? ? Hnk Hnrest]; subst.
    unfold np_lt. unfold numeric in Hnk. rewrite Hnk.
    cbn [negb andb]. rewrite orb_false_r.
    destruct (flt (at_ priority j) (at_ priority k)) eqn:E.
    + constructor; [constructor; assumption|].
      constructor.
      * unfold not_below. apply flt_asym. exact E.
      * rewrite Forall_forall in Hk, Hnrest. apply Forall_forall.
        intros m Hm. unfold not_below in *.
        eapply (flt_chain _ (at_ priority k)); eauto.
        apply Hnrest. exact Hm.
    + constructor; [apply IH; exact Hnrest|].
      apply Forall_forall. intros m Hm. apply insert_pos_In in Hm.
      destruct Hm as [-> | Hm]; [exact E|].
      rewrite Forall_forall in Hk. apply Hk. exact Hm.
Qed.

Lemma argsort_sorted (priority : list npfloat) :
  (forall i, (i < length priority)%nat -> numeric priority i) ->
  StronglySorted (not_below priority) (argsort priority).
Proof.
  intro Hnum. unfold argsort.
  assert (H : forall l acc,
             Forall (numeric priority) l ->
             Forall (numeric priority) acc ->
             StronglySorted (not_below priority) acc ->
             StronglySorted (not_below priority)
               (fold_left (fun sorted j => insert_pos priority j sorted)
                          l acc)).
  { induction l as [|j l IH]; intros acc Hl Hacc Hs; simpl; [exact Hs|].
    inversion Hl as [|? ? Hj Hrest]; subst.
    apply IH; [exact Hrest | | apply insert_pos_sorted; assumption].
    apply Forall_forall. intros m Hm. apply insert_pos_In in Hm.
    destruct Hm as [-> | Hm]; [exact Hj|].
    rewrite Forall_forall in Hacc. apply Hacc. exact Hm. }
  apply H; [|constructor|constructor].
  apply Forall_forall. intros i Hi. apply in_seq in Hi. apply Hnum. lia.
Qed.

Lemma sorted_last_dominates {A : Type} (R : A -> A -> Prop) (l : list A)
  (a : A) :
  StronglySorted R (l ++ [a]) -> Forall (fun i => R i a) l.
Proof.
  induction l as [|b l IH]; simpl; intro H; [constructor|].
  inversion H as [|? ? Hs Hb]; subst. constructor.
  - rewrite Forall_forall in Hb. apply Hb. apply in_or_app. right.
    left. reflexivity.
  - apply IH. exact Hs.
Qed.

Lemma at_map_at (x : list npfloat) (peaks : list nat) (i : nat) :
  (i < length peaks)%nat ->
  at_ (map (at_ x) peaks) i = at_ x (nth i peaks O).
Proof.
  intro Hi. unfold at_ at 1.
  rewrite (nth_indep _ NaN (at_ x O)) by (rewrite length_map; exact Hi).
  apply map_nth.
Qed.

(** X26.  Suppression by distance never discards every peak: whenever some
    bin qualifies as a candidate, [find_peaks] reports a candidate that no
    other candidate exceeds in power. *)
Theorem strongest_candidate_is_reported (x : list npfloat) (height : Q)
  (distance : nat) :
  candidates x height <> [] ->
  exists p,
    In p (find_peaks x height distance)
    /\ In p (candidates x height)
    /\ forall q, In q (candidates x height) ->
                 flt (at_ x p) (at_ x q) = false.
Proof.
  intro Hne. unfold find_peaks.
  set (peaks := candidates x height) in *.
  set (priority := map (at_ x) peaks).
  assert (Hlen : length priority = length peaks) by apply length_map.
  assert (Hpos : (0 < length peaks)%nat)
    by (destruct peaks; [congruence | simpl; lia]).
  assert (Hnum : forall i, (i < length priority)%nat -> numeric priority i).
  { intros i Hi. unfold numeric, priority. rewrite at_map_at by lia.
    apply (fle_Fin_self height). apply candidates_height.
    apply nth_In. change (i < length peaks)%nat. lia. }
  destruct (rev (argsort priority)) as [|j0 rest] eqn:Hrev.
  { exfalso. assert (Hin : In 0%nat (rev (argsort priority))).
    { apply -> in_rev. apply argsort_In. lia. }
    rewrite Hrev in Hin. contradiction. }
  assert (Hj0 : (j0 < length peaks)%nat).
  { assert (Hin : In j0 (argsort priority)).
    { apply in_rev. rewrite Hrev. left. reflexivity. }
    apply argsort_In in Hin. lia. }
  exists (nth j0 peaks O). split; [|split].
  - apply (first_visited_is_kept peaks priority distance j0 rest);
      [apply candidates_sorted | exact Hlen | exact Hrev].
  - apply nth_In. exact Hj0.
  - intros q Hq. apply (In_nth _ _ O) in Hq. destruct Hq as [i [Hi <-]].
    assert (Hsorted : StronglySorted (not_below priority)
                                     (rev rest ++ [j0])).
    { replace (rev rest ++ [j0]) with (argsort priority);
        [apply argsort_sorted; exact Hnum|].
      rewrite <- (rev_involutive (argsort priority)), Hrev. reflexivity. }
    apply sorted_last_dominates in Hsorted.
    destruct (Nat.eq_dec i j0) as [-> | Hne0]; [apply flt_irrefl|].
    assert (Hin : In i (rev rest)).
    { assert (Ha : In i (rev (argsort priority))).
      { apply -> in_rev. apply argsort_In. lia. }
      rewrite Hrev in Ha. destruct Ha as [E | Ha]; [congruence|].
      apply -> in_rev. exact Ha. }
    rewrite Forall_forall in Hsorted. specialize (Hsorted i Hin).
    unfold not_below, priority in Hsorted.
    rewrite !at_map_at in Hsorted by lia. exact Hsorted.
Qed.

Lemma strongest_candidate_is_reported_witness :
  exists p,
    In p (find_peaks spectrum_tie 1 peak_distance)
    /\ In p (candidates spectrum_tie 1)
    /\ forall q, In q (candidates spectrum_tie 1) ->
                 flt (at_ spectrum_tie p) (at_ spectrum_tie q) = false.
Proof.
  apply (strongest_candidate_is_reported spectrum_tie 1 peak_distance).
  vm_compute. discriminate.
Defined.
